(** * dbus-mppsolar: the PI18 poll cycle and the control translation

    A shallow embedding of [dbus-mppsolar.py]: the command builders
    ([setOutputSource] ... [setMaxUtilityChargingCurrent]), the poll cycle
    ([_update], [_update_PI18], [_updateInternal]) and the write handler
    ([_change], [_change_PI18]).

    - Python values are a tagged union [pyval]; floats are IEEE binary64
      (Rocq's primitive floats), integers are unbounded ([Z]).
    - The two D-Bus services are finite maps from path to value; reading or
      writing a path that was never registered raises [KeyError].
    - Code runs in a state-and-exception monad: a raised exception keeps the
      mutations made before it, as in Python.
    - The serial device is an oracle ([transport]); every command handed to
      it is recorded, in order, in the state.
    - The config file read at construction is an oracle as well ([host]). *)

From Stdlib Require Import ZArith Floats DecimalString Lia.
From stdpp Require Import gmap strings list.

Set Warnings "-inexact-float".
Local Open Scope Z_scope.

(** ** Python values and the operators the source applies to them *)

Module Py.

Inductive exn :=
| KeyError (k : string)
| TypeError
| ValueError
| ZeroDivisionError
| OverflowError
| TransportError
| DecodeError
| AttributeError
| OSError.

Inductive outcome (A : Type) :=
| Ret (a : A)
| Raise (e : exn).
Arguments Ret {A} a.
Arguments Raise {A} e.

Definition obind {A B} (o : outcome A) (k : A → outcome B) : outcome B :=
  match o with
  | Ret a => k a
  | Raise e => Raise e
  end.

Inductive pyval :=
| VNone
| VBool (b : bool)
| VInt (z : Z)
| VFloat (f : float)
| VStr (s : string).

(** A number is an [int] (with [bool] as its subclass) or a [float]. *)
Inductive num :=
| NInt (z : Z)
| NFloat (f : float).

Definition as_num (v : pyval) : option num :=
  match v with
  | VBool b => Some (NInt (if b then 1 else 0))
  | VInt z => Some (NInt z)
  | VFloat f => Some (NFloat f)
  | VNone | VStr _ => None
  end.

(** [float(z)]: round to nearest, ties to even; too large is an error. *)
Definition float_of_Z (z : Z) : outcome float :=
  let f := SF2Prim (binary_normalize prec emax z 0 false) in
  if PrimFloat.is_infinity f then Raise OverflowError else Ret f.

Definition Z2SF (z : Z) : spec_float :=
  match z with
  | Z0 => S754_zero false
  | Zpos p => S754_finite false p 0
  | Zneg p => S754_finite true p 0
  end.

(** [a / b] on two ints: the correctly rounded quotient. *)
Definition int_truediv (a b : Z) : outcome float :=
  if b =? 0 then Raise ZeroDivisionError
  else
    let f := SF2Prim (SFdiv prec emax (Z2SF a) (Z2SF b)) in
    if PrimFloat.is_infinity f then Raise OverflowError else Ret f.

Definition float_truediv (x y : float) : outcome float :=
  if PrimFloat.is_zero y then Raise ZeroDivisionError
  else Ret (PrimFloat.div x y).

(** [a / b] *)
Definition py_truediv (a b : pyval) : outcome pyval :=
  match as_num a, as_num b with
  | Some (NInt x), Some (NInt y) =>
      obind (int_truediv x y) (λ f, Ret (VFloat f))
  | Some (NInt x), Some (NFloat y) =>
      obind (float_of_Z x) (λ fx,
      obind (float_truediv fx y) (λ f, Ret (VFloat f)))
  | Some (NFloat x), Some (NInt y) =>
      obind (float_of_Z y) (λ fy,
      obind (float_truediv x fy) (λ f, Ret (VFloat f)))
  | Some (NFloat x), Some (NFloat y) =>
      obind (float_truediv x y) (λ f, Ret (VFloat f))
  | _, _ => Raise TypeError
  end.

(** [n] copies of [s] *)
Fixpoint repeat_str (s : string) (n : nat) : string :=
  match n with
  | O => EmptyString
  | S k => s +:+ repeat_str s k
  end.

(** [a * n] for an int literal [n]: the product of a number, the repetition
    of a str (empty when [n] is not positive). *)
Definition py_mul_int (a : pyval) (n : Z) : outcome pyval :=
  match a with
  | VNone => Raise TypeError
  | VBool b => Ret (VInt ((if b then 1 else 0) * n))
  | VInt x => Ret (VInt (x * n))
  | VFloat x => obind (float_of_Z n) (λ fn, Ret (VFloat (PrimFloat.mul x fn)))
  | VStr s => Ret (VStr (repeat_str s (Z.to_nat n)))
  end.

(** The integer nearest to m * 2^e (m > 0), ties to the even one. *)
Definition round_half_even (m e : Z) : Z :=
  if 0 <=? e then m * 2 ^ e
  else
    let d := 2 ^ (- e) in
    let q := m / d in
    let r := m mod d in
    if 2 * r <? d then q
    else if d <? 2 * r then q + 1
    else if Z.even q then q else q + 1.

(** m * 2^e (m > 0) truncated toward zero. *)
Definition truncate (m e : Z) : Z :=
  if 0 <=? e then m * 2 ^ e else m / 2 ^ (- e).

Definition float_to_Z (rnd : Z → Z → Z) (f : float) : outcome Z :=
  match Prim2SF f with
  | S754_zero _ => Ret 0
  | S754_infinity _ => Raise OverflowError
  | S754_nan => Raise ValueError
  | S754_finite s m e =>
      let z := rnd (Zpos m) e in Ret (if s then - z else z)
  end.

(** [round(x)] with one argument: always an int. *)
Definition py_round (x : num) : outcome Z :=
  match x with
  | NInt z => Ret z
  | NFloat f => float_to_Z round_half_even f
  end.

(** Whitespace as [int()] skips it around a literal: tab to carriage
    return, space, and the two whitespace characters above 127 (NEL, NBSP).
    The characters of a string are code points below 256. *)
Definition is_space (c : Ascii.ascii) : bool :=
  let n := Ascii.N_of_ascii c in
  ((9 <=? n) && (n <=? 13) || (n =? 32) || (n =? 133) || (n =? 160))%N.

Definition digit_value (c : Ascii.ascii) : option Z :=
  let n := Ascii.N_of_ascii c in
  if ((48 <=? n) && (n <=? 57))%N then Some (Z.of_N n - 48) else None.

Fixpoint lstrip_space (s : string) : string :=
  match s with
  | EmptyString => EmptyString
  | String c t => if is_space c then lstrip_space t else s
  end.

Fixpoint all_space (s : string) : bool :=
  match s with
  | EmptyString => true
  | String c t => is_space c && all_space t
  end.

(** What may follow the first digit of a literal: further digits, single
    underscores between two digits, and whitespace up to the end. *)
Fixpoint more_digits (acc : Z) (s : string) : option Z :=
  match s with
  | EmptyString => Some acc
  | String c t =>
      match digit_value c with
      | Some d => more_digits (10 * acc + d) t
      | None =>
          if (Ascii.N_of_ascii c =? 95)%N then
            match t with
            | String c' t' =>
                match digit_value c' with
                | Some d => more_digits (10 * acc + d) t'
                | None => None
                end
            | EmptyString => None
            end
          else if all_space s then Some acc else None
      end
  end.

(** [int(s)] for a str, base 10: whitespace, an optional sign, digits.
    The interpreter's resource limits (memory, the configurable cap on the
    number of digits of a conversion) are not modelled. *)
Definition int_of_str (s : string) : outcome Z :=
  let body := lstrip_space s in
  let '(negative, rest) :=
    match body with
    | String c t =>
        if (Ascii.N_of_ascii c =? 45)%N then (true, t)
        else if (Ascii.N_of_ascii c =? 43)%N then (false, t)
        else (false, body)
    | EmptyString => (false, body)
    end in
  match rest with
  | String c t =>
      match digit_value c with
      | Some d =>
          match more_digits d t with
          | Some z => Ret (if negative then - z else z)
          | None => Raise ValueError
          end
      | None => Raise ValueError
      end
  | EmptyString => Raise ValueError
  end.

(** [int(x)] *)
Definition py_int (x : pyval) : outcome Z :=
  match x with
  | VNone => Raise TypeError
  | VBool b => Ret (if b then 1 else 0)
  | VInt z => Ret z
  | VFloat f => float_to_Z truncate f
  | VStr s => int_of_str s
  end.

(** Exact comparison of a float with an int; [None] for NaN. *)
Definition float_compare_Z (f : float) (z : Z) : option comparison :=
  match Prim2SF f with
  | S754_nan => None
  | S754_infinity s => Some (if s then Lt else Gt)
  | S754_zero _ => Some (0 ?= z)
  | S754_finite s m e =>
      let sm := if s then Zneg m else Zpos m in
      Some (if 0 <=? e then sm * 2 ^ e ?= z else sm ?= z * 2 ^ (- e))
  end.

Definition num_compare_Z (x : num) (z : Z) : option comparison :=
  match x with
  | NInt a => Some (a ?= z)
  | NFloat f => float_compare_Z f z
  end.

(** [v == n] for an int literal [n]; never raises. *)
Definition py_eq_int (v : pyval) (n : Z) : bool :=
  match as_num v with
  | Some x => match num_compare_Z x n with Some Eq => true | _ => false end
  | None => false
  end.

(** [v != n] *)
Definition py_ne_int (v : pyval) (n : Z) : bool := negb (py_eq_int v n).

(** [v == s] for a string literal [s] *)
Definition py_eq_str (v : pyval) (s : string) : bool :=
  match v with
  | VStr t => String.eqb t s
  | _ => false
  end.

(** [v != None] *)
Definition py_ne_None (v : pyval) : bool :=
  match v with
  | VNone => false
  | _ => true
  end.

(** [v > n] for an int literal [n]: only numbers are ordered against it. *)
Definition py_gt_int (v : pyval) (n : Z) : outcome bool :=
  match as_num v with
  | Some x =>
      Ret (match num_compare_Z x n with Some Gt => true | _ => false end)
  | None => Raise TypeError
  end.

(** [n & v] for an int literal [n]: defined on ints only. *)
Definition py_and_int (n : Z) (v : pyval) : outcome Z :=
  match as_num v with
  | Some (NInt z) => Ret (Z.land n z)
  | _ => Raise TypeError
  end.

(** Decimal digits of a natural number. *)
Definition digits (n : N) : string := NilZero.string_of_uint (N.to_uint n).

Fixpoint zeros (n : nat) : string :=
  match n with
  | O => EmptyString
  | S k => "0" +:+ zeros k
  end.

(** ['{:0Wd}'.format(z)]: sign first, then zeros up to width W. *)
Definition zfill (w : nat) (z : Z) : string :=
  let d := digits (Z.abs_N z) in
  if z <? 0
  then "-" +:+ zeros (w - 1 - String.length d)%nat +:+ d
  else zeros (w - String.length d)%nat +:+ d.

(** ['{:0Wd}'.format(v)]; width 0 is the plain ['{:d}']. *)
Definition format_d (w : nat) (v : pyval) : outcome string :=
  match v with
  | VInt z => Ret (zfill w z)
  | VBool b => Ret (zfill w (if b then 1 else 0))
  | VFloat _ | VStr _ => Raise ValueError
  | VNone => Raise TypeError
  end.

End Py.
Import Py.

(** ** The service object: state, exceptions, logging *)

Inductive level := INFO | WARNING | ERROR.

(** One of the two [VeDbusService] objects the service owns. *)
Inductive service := Inverter | Charger.

(** The mutable state [_update] and [_change] run on. [sent] lists the
    commands handed to the device and [logged] the log calls (level and
    message template), both oldest first. *)
Record state := State {
  _dbusinverter : gmap string pyval;
  _dbusmppt : gmap string pyval;
  _queued_updates : list (string * pyval);
  sent : list string;
  logged : list (level * string);
  mainloop_running : bool
}.

Definition tree (sv : service) (s : state) : gmap string pyval :=
  match sv with
  | Inverter => _dbusinverter s
  | Charger => _dbusmppt s
  end.

Definition set_tree (sv : service) (t : gmap string pyval) (s : state) : state :=
  match sv with
  | Inverter =>
      State t (_dbusmppt s) (_queued_updates s) (sent s) (logged s)
        (mainloop_running s)
  | Charger =>
      State (_dbusinverter s) t (_queued_updates s) (sent s) (logged s)
        (mainloop_running s)
  end.

Definition set_queue (q : list (string * pyval)) (s : state) : state :=
  State (_dbusinverter s) (_dbusmppt s) q (sent s) (logged s)
    (mainloop_running s).

Definition add_sent (c : string) (s : state) : state :=
  State (_dbusinverter s) (_dbusmppt s) (_queued_updates s) (sent s ++ [c])
    (logged s) (mainloop_running s).

Definition add_log (l : level) (msg : string) (s : state) : state :=
  State (_dbusinverter s) (_dbusmppt s) (_queued_updates s) (sent s)
    (logged s ++ [(l, msg)]) (mainloop_running s).

Definition stop_mainloop (s : state) : state :=
  State (_dbusinverter s) (_dbusmppt s) (_queued_updates s) (sent s)
    (logged s) false.

(** State and exceptions: the state reached is kept when an exception is
    raised. *)
Definition M (A : Type) : Type := state → outcome A * state.

Definition ret {A} (a : A) : M A := λ s, (Ret a, s).
Definition raise {A} (e : exn) : M A := λ s, (Raise e, s).

Definition bind {A B} (c : M A) (k : A → M B) : M B :=
  λ s, match c s with
       | (Ret a, s') => k a s'
       | (Raise e, s') => (Raise e, s')
       end.

#[global] Instance M_ret : MRet M := @ret.
#[global] Instance M_bind : MBind M := λ A B k c, bind c k.

(** A pure operator that may raise. *)
Definition lift {A} (o : outcome A) : M A := λ s, (o, s).

(** [try: x = c / except: handler / k x], with a bare [except]. *)
Definition try_except {A B} (c : M A) (handler : M B) (k : A → M B) : M B :=
  λ s, match c s with
       | (Ret a, s') => k a s'
       | (Raise _, s') => handler s'
       end.

Definition log (l : level) (msg : string) : M unit :=
  λ s, (Ret tt, add_log l msg s).

Definition mainloop_quit : M unit := λ s, (Ret tt, stop_mainloop s).

Definition queued : M (list (string * pyval)) :=
  λ s, (Ret (_queued_updates s), s).

Definition put_queue (q : list (string * pyval)) : M unit :=
  λ s, (Ret tt, set_queue q s).

(** [sv[path]]: the bus library raises [KeyError] for a path that was not
    added to the service. *)
Definition getitem (sv : service) (path : string) : M pyval :=
  λ s, match tree sv s !! path with
       | Some v => (Ret v, s)
       | None => (Raise (KeyError path), s)
       end.

(** [sv[path] = v] *)
Definition setitem (sv : service) (path : string) (v : pyval) : M unit :=
  λ s, match tree sv s !! path with
       | Some _ => (Ret tt, set_tree sv (<[path := v]> (tree sv s)) s)
       | None => (Raise (KeyError path), s)
       end.

(** [d.get(k, dflt)] *)
Definition dict_get (d : gmap string pyval) (k : string) (dflt : pyval) : pyval :=
  default dflt (d !! k).

Fixpoint for_each {A} (l : list A) (body : A → M unit) : M unit :=
  match l with
  | [] => ret tt
  | a :: l' => body a ;; for_each l' body
  end.

Fixpoint collect {A B} (l : list A) (f : A → M B) : M (list B) :=
  match l with
  | [] => ret []
  | a :: l' => b ← f a; bs ← collect l' f; ret (b :: bs)
  end.

(** ** The device *)

(** The serial device behind [mppsolar]: building the device object,
    running one command, and decoding its response may each fail. *)
Record transport (response : Type) := Transport {
  get_device : string → bool;
  run_command : string → string → option response;
  to_json : response → option (gmap string pyval)
}.
Arguments get_device {response} _ _.
Arguments run_command {response} _ _ _.
Arguments to_json {response} _ _.

(** What [setMaxChargingVoltage] returns: the decoded responses or [True]. *)
Inductive retval :=
| Parsed (l : list (gmap string pyval))
| PyTrue.

Section Service.

Context {response : Type} (dev : transport response).

(** [dev.run_command(command=c)] *)
Definition send (protocol c : string) : M response :=
  λ s, match run_command dev protocol c with
       | Some r => (Ret r, add_sent c s)
       | None => (Raise TransportError, add_sent c s)
       end.

(** [USE_SYSTEM_MPPSOLAR] is [False]: the second branch runs. All commands
    are run first, then all responses are decoded. *)
Definition runInverterCommands (commands : list string) (protocol : string)
  : M (list (gmap string pyval)) :=
  (if get_device dev protocol then ret tt else raise TransportError) ;;
  results ← collect commands (send protocol);
  collect results (λ r,
    match to_json dev r with
    | Some j => ret j
    | None => raise DecodeError
    end).

Definition setOutputSource (source : pyval) (protocol : string)
  : M (list (gmap string pyval)) :=
  nn ← lift (format_d 2 source);
  runInverterCommands ["POP" +:+ nn] "PI18".

Definition setChargerPriority (priority : pyval) (protocol : string)
  : M (list (gmap string pyval)) :=
  nn ← lift (format_d 2 priority);
  runInverterCommands ["PCP" +:+ nn] "PI18".

Definition setMaxChargingVoltage (voltage : pyval) (protocol : string)
  : M retval :=
  if String.eqb protocol "PI18" then
    bulk ← lift (obind (obind (py_mul_int voltage 10) py_int)
                   (λ z, format_d 0 (VInt z)));
    float ← lift (obind (obind (py_mul_int voltage 10) py_int)
                    (λ z, format_d 0 (VInt z)));
    r ← runInverterCommands ["MCHGV" +:+ bulk +:+ "," +:+ float] protocol;
    ret (Parsed r)
  else ret PyTrue.

(** [round(current / 10) * 10] *)
Definition roundedCurrent (current : pyval) : outcome Z :=
  obind (py_truediv current (VInt 10)) (λ q,
  obind (match as_num q with
         | Some x => py_round x
         | None => Raise TypeError
         end) (λ r, Ret (r * 10))).

Definition setMaxChargingCurrent (current : pyval) (protocol : string)
  : M (list (gmap string pyval)) :=
  rc ← lift (roundedCurrent current);
  if String.eqb protocol "PI18" then
    nnnn ← lift (format_d 4 (VInt rc));
    runInverterCommands ["MCHGC0" +:+ nnnn] protocol
  else
    nnnn ← lift (format_d 4 (VInt rc));
    runInverterCommands ["MNCHGC0" +:+ nnnn] protocol.

Definition setMaxUtilityChargingCurrent (current : pyval) (protocol : string)
  : M (list (gmap string pyval)) :=
  rc ← lift (obind (roundedCurrent current) (λ r, Ret (Z.max 2 r)));
  if String.eqb protocol "PI18" then
    nnnn ← lift (format_d 4 (VInt rc));
    runInverterCommands ["MUCHGC0" +:+ nnnn] protocol
  else
    nnn ← lift (format_d 3 current);
    runInverterCommands ["MUCHGC" +:+ nnn] "PI18".

(** Store in the paths all values queued by [_change_PI18]. *)
Definition _updateInternal : M unit :=
  q ← queued;
  for_each q (λ pv,
    setitem Inverter pv.1 pv.2 ;;
    setitem Charger pv.1 pv.2) ;;
  put_queue [].

Definition _update_PI18 : M bool :=
  try_except (runInverterCommands ["ET"; "GS"; "MOD"; "PIRI"] "PI18")
    (log WARNING "Error in update PI18 loop." ;;
     _updateInternal ;;
     ret true)
    (λ raw,
     match raw with
     | [generated; data; mode; rated] =>
         (* 0=Off;1=Low Power;2=Fault;9=Inverting *)
         st ← getitem Inverter "/State";
         (let invMode := dict_get mode "working_mode" st in
          if py_eq_str invMode "Battery mode"
          then setitem Inverter "/State" (VInt 9)
          else if py_eq_str invMode "Fault mode"
          then setitem Inverter "/State" (VInt 2)
          else setitem Inverter "/State" (VInt 0)) ;;
         (* Normal operation, read data *)
         d ← getitem Inverter "/Dc/0/Voltage";
         setitem Inverter "/Dc/0/Voltage" (dict_get data "battery_voltage" d) ;;
         d ← getitem Charger "/Dc/0/Voltage";
         setitem Charger "/Dc/0/Voltage" (dict_get data "battery_voltage" d) ;;
         d ← getitem Inverter "/Ac/Out/L1/V";
         setitem Inverter "/Ac/Out/L1/V" (dict_get data "ac_output_voltage" d) ;;
         d ← getitem Inverter "/Ac/Out/L1/P";
         setitem Inverter "/Ac/Out/L1/P"
           (dict_get data "ac_output_active_power" d) ;;
         (* [V != 0 & P != 0] parses as the chain [V != (0 & P) != 0] *)
         v ← getitem Inverter "/Ac/Out/L1/V";
         p ← getitem Inverter "/Ac/Out/L1/P";
         b ← lift (py_and_int 0 p);
         (if py_ne_int v b && py_ne_int (VInt b) 0 then
            p ← getitem Inverter "/Ac/Out/L1/P";
            v ← getitem Inverter "/Ac/Out/L1/V";
            output_current ← lift (py_truediv p v);
            setitem Inverter "/Ac/Out/L1/I" output_current
          else ret tt) ;;
         (* Solar charger *)
         g ← lift (py_gt_int (dict_get data "pv1_input_power" (VInt 0)) 0);
         (if g : bool then setitem Charger "/State" (VInt 3)
          else setitem Charger "/State" (VInt 0)) ;;
         d ← getitem Charger "/Pv/V";
         setitem Charger "/Pv/V" (dict_get data "pv1_input_voltage" d) ;;
         d ← getitem Charger "/Yield/Power";
         setitem Charger "/Yield/Power" (dict_get data "pv1_input_power" d) ;;
         d ← getitem Charger "/Yield/User";
         y ← lift (py_truediv (dict_get generated "total_generated_energy" d)
                     (VInt 1000));
         setitem Charger "/Yield/User" y ;;
         d ← getitem Charger "/Yield/System";
         y ← lift (py_truediv (dict_get generated "total_generated_energy" d)
                     (VInt 1000));
         setitem Charger "/Yield/System" y ;;
         g ← (if py_ne_None (dict_get data "pv1_input_power" VNone)
              then lift (py_gt_int (dict_get data "pv1_input_power" VNone) 0)
              else ret false);
         setitem Charger "/MppOperationMode" (VInt (if g : bool then 2 else 0)) ;;
         (* Misc *)
         d ← getitem Inverter "/Temperature";
         setitem Inverter "/Temperature"
           (dict_get data "inverter_heat_sink_temperature" d) ;;
         d ← getitem Charger "/DC/0/Temperature";
         setitem Charger "/DC/0/Temperature"
           (dict_get data "mppt1_charger_temperature" d) ;;
         (* Execute updates of previously updated values *)
         _updateInternal ;;
         ret true
     | _ => raise ValueError
     end).

Definition _update : M bool :=
  log INFO "{} updating" ;;
  try_except _update_PI18
    (log ERROR "Error in update loop" ;;
     _updateInternal ;;
     ret true)
    ret.

Definition _change_PI18 (path : string) (value : pyval) : M bool :=
  (* Link *)
  (if String.eqb path "/Link" then log WARNING "{} : {}" else ret tt) ;;
  (if String.eqb path "/Link/ChargeCurrent"
   then log WARNING "/Link/ChargeCurrent : {}" else ret tt) ;;
  (if String.eqb path "/Link/ChargeCurrent"
   then log WARNING "/Link/ChargeCurrent : {}" else ret tt) ;;
  (* Mode settings: 1=Charger Only;2=Inverter Only;3=On;4=Off(?) *)
  (if String.eqb path "/Mode" then
     (if py_eq_int value 1 then
        setChargerPriority (VInt 1) "PI18" ;;
        setOutputSource (VInt 1) "PI18" ;;
        log WARNING "setting mode to 'Charger Only'(Charger=Util) ({})"
      else if py_eq_int value 2 then
        setChargerPriority (VInt 0) "PI18" ;;
        setOutputSource (VInt 2) "PI18" ;;
        log WARNING
          "setting mode to 'Inverter Only'(Charger=Solar & Output=SBU) ({},{})"
      else if py_eq_int value 3 then
        setChargerPriority (VInt 1) "PI18" ;;
        setOutputSource (VInt 2) "PI18" ;;
        log WARNING
          "setting mode to 'ON=Charge+Invert'(Charger=Util & Output=SBU) ({},{})"
      else if py_eq_int value 4 then
        setChargerPriority (VInt 3) "PI18" ;;
        setOutputSource (VInt 2) "PI18" ;;
        log WARNING "setting mode to 'OFF'(Charger=Solar) ({})"
      else
        log WARNING "setting mode not understood ({})") ;;
     q ← queued;
     put_queue (q ++ [(path, value)])
   else ret tt) ;;
  ret true. (* accept the change *)

Definition _change (path : string) (value : pyval) : M bool :=
  log WARNING "updated %s to %s" ;;
  (if String.eqb path "/Settings/Reset"
   then log INFO "Restarting!" ;; mainloop_quit
   else ret tt) ;;
  try_except (_change_PI18 path value)
    (log ERROR "Error in change loop" ;;
     mainloop_quit ;;
     ret false)
    ret.

End Service.

(** ** Construction: the paths each service registers *)

#[local] Set Warnings "-register-all".

(** A value as [json.load] returns it. A dict is the list of its items,
    each key once. *)
Inductive json :=
| JNull
| JBool (b : bool)
| JInt (z : Z)
| JFloat (f : float)
| JStr (s : string)
| JList (l : list json)
| JDict (d : list (string * json)).

(** What construction finds on the host. [config_file] is [None] when the
    path does not exist, and otherwise what opening and loading the file
    gives: a value, or the exception [open] or [json.load] raises. [py_str]
    is the host's [str()]; the model consults it only for the text of a
    float, a list or a dict. *)
Record host := Host {
  config_file : option (outcome json);
  py_str : json → string
}.

Fixpoint dict_lookup (d : list (string * json)) (key : string) : option json :=
  match d with
  | [] => None
  | (k, v) :: rest => if String.eqb k key then Some v else dict_lookup rest key
  end.

(** [sub in s] for two strs: [sub] occurs in [s]. *)
Fixpoint occurs_in (sub s : string) : bool :=
  String.prefix sub s
  || match s with
     | EmptyString => false
     | String _ t => occurs_in sub t
     end.

(** [key in config] for a str [key] *)
Definition py_contains (config : json) (key : string) : outcome bool :=
  match config with
  | JDict d => Ret (match dict_lookup d key with Some _ => true | None => false end)
  | JList l =>
      Ret (existsb (λ x, match x with
                         | JStr s => String.eqb s key
                         | _ => false
                         end) l)
  | JStr s => Ret (occurs_in key s)
  | JNull | JBool _ | JInt _ | JFloat _ => Raise TypeError
  end.

(** [config[key]] for a str [key]: a list or a str takes no str index. *)
Definition py_getitem_str (config : json) (key : string) : outcome json :=
  match config with
  | JDict d =>
      match dict_lookup d key with
      | Some v => Ret v
      | None => Raise (KeyError key)
      end
  | JNull | JBool _ | JInt _ | JFloat _ | JStr _ | JList _ => Raise TypeError
  end.

(** [entry.get(key, None)]: only a dict has [get]. *)
Definition py_get (entry : json) (key : string) : outcome json :=
  match entry with
  | JDict d => Ret (default JNull (dict_lookup d key))
  | JNull | JBool _ | JInt _ | JFloat _ | JStr _ | JList _ =>
      Raise AttributeError
  end.

(** The text an f-string puts for [{v}]. *)
Definition format_value (h : host) (v : json) : string :=
  match v with
  | JStr s => s
  | JInt z => zfill 0 z
  | JBool b => if b then "True" else "False"
  | JNull => "None"
  | JFloat _ | JList _ | JDict _ => py_str h v
  end.

Section Init.

Context {response : Type} (dev : transport response).
Context (file python_version : string).
Context (h : host).

(** The management, mandatory and settings paths shared by both services. *)
Definition setupInverterDefaultPaths (connection : string)
    (deviceinstance : Z) (productname : string) : list (string * pyval) :=
  [ ("/Mgmt/ProcessName", VStr file);
    ("/Mgmt/ProcessVersion",
     VStr ("version f{VERSION}, and running on Python " +:+ python_version));
    ("/Mgmt/Connection", VStr connection);
    ("/DeviceInstance", VInt deviceinstance);
    ("/ProductId", VNone);
    ("/ProductName", VStr productname);
    ("/FirmwareVersion", VNone);
    ("/HardwareVersion", VNone);
    ("/Connected", VInt 1);
    ("/Settings/Reset", VNone);
    ("/Settings/Charger", VNone);
    ("/Settings/Output", VNone) ].

Definition setupChargerDefaultPaths (connection : string)
    (deviceinstance : Z) (productname : string) : list (string * pyval) :=
  [ ("/Mgmt/ProcessName", VStr file);
    ("/Mgmt/ProcessVersion",
     VStr ("version f{VERSION}, and running on Python " +:+ python_version));
    ("/Mgmt/Connection", VStr connection);
    ("/DeviceInstance", VInt deviceinstance);
    ("/ProductId", VNone);
    ("/ProductName", VStr productname);
    ("/FirmwareVersion", VNone);
    ("/HardwareVersion", VNone);
    ("/Connected", VInt 1);
    ("/Settings/Reset", VNone);
    ("/Settings/Charger", VNone);
    ("/Settings/Output", VNone) ].

(** Paths for the inverter *)
Definition inverter_paths : list (string * pyval) :=
  [ ("/Dc/0/Voltage", VInt 0);
    ("/Ac/Out/L1/V", VInt 0);
    ("/Ac/Out/L1/I", VInt 0);
    ("/Ac/Out/L1/P", VInt 0);
    ("/Mode", VInt 0);
    ("/State", VInt 0);
    ("/Temperature", VInt 123) ].

(** Paths for the charger *)
Definition charger_paths : list (string * pyval) :=
  [ ("/NrOfTrackers", VInt 1);
    ("/Pv/V", VInt 0);
    ("/Yield/Power", VInt 0);
    ("/DC/0/Temperature", VInt 123);
    ("/Dc/0/Voltage", VInt 0);
    ("/Dc/0/Current", VInt 0);
    ("/Link/NetworkMode", VInt 1);
    ("/Link/BatteryCurrent", VInt 0);
    ("/Link/ChargeCurrent", VInt 0);
    ("/Link/ChargeVoltage", VInt 0);
    ("/Link/NetworkStatus", VInt 4);
    ("/Link/TemperatureSense", VInt 0);
    ("/Link/TemperatureSenseActive", VInt 0);
    ("/Link/VoltageSense", VInt 0);
    ("/Link/VoltageSenseActive", VInt 0);
    ("/Settings/BmsPresent", VNone);
    ("/Settings/ChargeCurrentLimit", VInt 80);
    ("/Yield/User", VInt 0);
    ("/Yield/System", VInt 0);
    ("/ErrorCode", VInt 0);
    ("/State", VInt 0);
    ("/Mode", VInt 0);
    ("/MppOperationMode", VInt 0);
    ("/Relay/0/State", VNone) ].

(** [add_path] in source order; a later [add_path] never repeats a path. *)
Definition add_paths (l : list (string * pyval)) (t : gmap string pyval)
  : gmap string pyval :=
  foldl (λ t pv, <[pv.1 := pv.2]> t) t l.

(** [DbusMppSolarService(tty, deviceinstance, productname, connection)].
    The services of the bus library are taken to be created and their paths
    added without error. *)
Definition __init__ (tty : string) (deviceinstance : Z)
    (productname connection : string) : M unit :=
  put_queue [] ;;
  (* Get the name from config file if available *)
  productname ←
    match config_file h with
    | Some loaded =>
        config ← lift loaded;
        known ← lift (py_contains config tty);
        if known : bool then
          entry ← lift (py_getitem_str config tty);
          productname_value ← lift (py_get entry "productname");
          match productname_value with
          | JNull => ret (JStr productname)
          | _ =>
              log WARNING "Product named from config : {}" ;;
              ret productname_value
          end
        else ret (JStr productname)
    | None => ret (JStr productname)
    end;
  log WARNING "Protocol set to PI18." ;;
  try_except (runInverterCommands dev ["ID"; "VFW"] "PI18")
    (log WARNING "Error getting datas from inverter on {tty} ({self._invProtocol})")
    (λ _, ret tt) ;;
  log WARNING
    "Connected to inverter on {tty} ({self._invProtocol}), setting up dbus with /DeviceInstance = {deviceinstance}" ;;
  (λ s, (Ret tt,
     set_tree Charger
       (add_paths charger_paths
          (add_paths
             (setupChargerDefaultPaths connection deviceinstance
                ("Charger " +:+ format_value h productname)) ∅))
       (set_tree Inverter
          (add_paths inverter_paths
             (add_paths
                (setupInverterDefaultPaths connection deviceinstance
                   ("Inverter " +:+ format_value h productname)) ∅)) s))) ;;
  log INFO "Paths for Inverter created." ;;
  log INFO "Paths for 'solarcharger' created.".

End Init.

(** The state before construction. *)
Definition blank : state := State ∅ ∅ [] [] [] true.

(** ** The specification's tables and rounding *)

(** The four queries of one cycle. *)
Definition batch : list string := ["ET"; "GS"; "MOD"; "PIRI"].

(** The inverter run-state code of a working mode, as the specification
    gives the mapping. *)
Definition run_state_code (w : pyval) : Z :=
  match w with
  | VStr t =>
      if String.eqb t "Battery mode" then 9
      else if String.eqb t "Fault mode" then 2
      else 0
  | _ => 0
  end.

(** The directive table as the specification gives it: the charger-priority
    command, then the output-source command. *)
Definition mode_commands (n : Z) : list string :=
  if n =? 1 then ["PCP01"; "POP01"]
  else if n =? 2 then ["PCP00"; "POP02"]
  else if n =? 3 then ["PCP01"; "POP02"]
  else if n =? 4 then ["PCP03"; "POP02"]
  else [].

(** The multiple of 10 nearest to [c]; on a tie (c ends in 5) the one whose
    number of tens is even. This is the rounding as the specification words
    it, on integers alone. *)
Definition nearest10 (c : Z) : Z :=
  let q := c / 10 in
  let r := c mod 10 in
  10 * (if r <? 5 then q
        else if 5 <? r then q + 1
        else if Z.even q then q else q + 1).

(** The largest current the checks below cover; the four-digit field of the
    command holds up to 9999. *)
Definition max_current : Z := 20000.

(** ** Concrete devices and states *)

(** The decoded records of the end-to-end scenario of the specification. *)
Definition scenario_device : transport (gmap string pyval) :=
  Transport _
    (λ _, true)
    (λ _ c,
       if String.eqb c "ET" then
         Some {[ "total_generated_energy" := VInt 15000 ]}
       else if String.eqb c "GS" then
         Some (list_to_map
                 [ ("battery_voltage", VFloat 52.1);
                   ("ac_output_voltage", VFloat 230.0);
                   ("ac_output_active_power", VInt 500);
                   ("pv1_input_power", VInt 120);
                   ("pv1_input_voltage", VInt 60) ])
       else if String.eqb c "MOD" then
         Some {[ "working_mode" := VStr "Battery mode" ]}
       else Some ∅)
    Some.

(** A device that answers no command. *)
Definition silent_device : transport unit :=
  Transport _ (λ _, true) (λ _ _, None) (λ _, None).

(** A host without a config file; its [str()] is never consulted. *)
Definition no_config : host := Host None (λ _, EmptyString).

(** The service right after construction. *)
Definition started : state :=
  (__init__ scenario_device "dbus-mppsolar.py" "3" no_config "ttyUSB0" 0
     "MPPSolar" "MPPSolar interface" blank).2.

(** A device in fault: the mode query reports "Fault mode", and the status
    record carries the active power as a float. *)
Definition fault_device : transport (gmap string pyval) :=
  Transport _
    (λ _, true)
    (λ _ c,
       if String.eqb c "GS" then
         Some (list_to_map
                 [ ("battery_voltage", VFloat 48.0);
                   ("ac_output_voltage", VFloat 0.0);
                   ("ac_output_active_power", VFloat 500.0) ])
       else if String.eqb c "MOD" then
         Some {[ "working_mode" := VStr "Fault mode" ]}
       else Some ∅)
    Some.

(** A device whose energy-totals record lacks [total_generated_energy]. *)
Definition no_energy_device : transport (gmap string pyval) :=
  Transport _
    (λ _, true)
    (λ _ c,
       if String.eqb c "GS" then
         Some (list_to_map
                 [ ("battery_voltage", VFloat 52.1);
                   ("ac_output_voltage", VFloat 230.0);
                   ("ac_output_active_power", VInt 500);
                   ("pv1_input_power", VInt 120);
                   ("pv1_input_voltage", VInt 60) ])
       else if String.eqb c "MOD" then
         Some {[ "working_mode" := VStr "Battery mode" ]}
       else Some ∅)
    Some.

(** The state after one cycle of the scenario: 15000 was published as 15.0. *)
Definition polled : state := (_update scenario_device started).2.

(** The state after [_change] accepted ['/Mode' = 4]: one update pending. *)
Definition pending_off : state :=
  (_change scenario_device "/Mode" (VInt 4) started).2.

(** ** Predicates on states *)

(** [path] was added to the service. *)
Definition registered (sv : service) (path : string) (s : state) : Prop :=
  is_Some (tree sv s !! path).

(** Every queued path exists in both services. *)
Definition queue_registered (s : state) : Prop :=
  ∀ pv, pv ∈ _queued_updates s →
    registered Inverter pv.1 s ∧ registered Charger pv.1 s.

(** The tree after writing the pairs of [l], in order. *)
Definition store_all (l : list (string * pyval)) (t : gmap string pyval)
  : gmap string pyval :=
  add_paths l t.

(** The value queued last for [k], if any. *)
Fixpoint queued_value (l : list (string * pyval)) (k : string) : option pyval :=
  match l with
  | [] => None
  | pv :: l' =>
      match queued_value l' k with
      | Some w => Some w
      | None => if decide (pv.1 = k) then Some pv.2 else None
      end
  end.

(** ** A program logic for [M] *)

(** [hoare P c Q]: from a state in [P], [c] ends (normally or by an
    exception) in an outcome and state related by [Q]. [M] is total, so this
    is total correctness. *)
Definition hoare {A} (P : state → Prop) (c : M A)
    (Q : outcome A → state → Prop) : Prop :=
  ∀ s, P s → Q (c s).1 (c s).2.

(** [I] survives [c], however [c] ends. *)
Definition stable {A} (I : state → Prop) (c : M A) : Prop :=
  hoare I c (λ _, I).

Section Logic.

Context {A B : Type}.

Lemma hoare_conseq (P P' : state → Prop) (Q Q' : outcome A → state → Prop)
    (c : M A) :
  hoare P' c Q' → (∀ s, P s → P' s) → (∀ o s, Q' o s → Q o s) → hoare P c Q.
Proof. intros H HP HQ s Hs. apply HQ, H, HP, Hs. Qed.

Lemma hoare_bind (P : state → Prop) (R : outcome A → state → Prop)
    (Q : outcome B → state → Prop) (c : M A) (k : A → M B) :
  hoare P c R →
  (∀ a, hoare (R (Ret a)) (k a) Q) →
  (∀ e s, R (Raise e) s → Q (Raise e) s) →
  hoare P (c ≫= k) Q.
Proof.
  intros Hc Hk He s Hs. specialize (Hc s Hs).
  unfold mbind, M_bind, bind.
  destruct (c s) as [[a|e] s1]; simpl in *.
  - apply Hk, Hc.
  - apply He, Hc.
Qed.

Lemma hoare_try (P : state → Prop) (R : outcome A → state → Prop)
    (Q : outcome B → state → Prop) (c : M A) (h : M B) (k : A → M B) :
  hoare P c R →
  (∀ a, hoare (R (Ret a)) (k a) Q) →
  (∀ e, hoare (R (Raise e)) h Q) →
  hoare P (try_except c h k) Q.
Proof.
  intros Hc Hk Hh s Hs. specialize (Hc s Hs).
  unfold try_except.
  destruct (c s) as [[a|e] s1]; simpl in *.
  - apply Hk, Hc.
  - apply (Hh e), Hc.
Qed.

Lemma stable_bind (I : state → Prop) (c : M A) (k : A → M B) :
  stable I c → (∀ a, stable I (k a)) → stable I (c ≫= k).
Proof.
  intros Hc Hk. eapply hoare_bind; [exact Hc | exact Hk | auto].
Qed.

Lemma stable_try (I : state → Prop) (c : M A) (h : M B) (k : A → M B) :
  stable I c → stable I h → (∀ a, stable I (k a)) → stable I (try_except c h k).
Proof.
  intros Hc Hh Hk. eapply hoare_try; [exact Hc | exact Hk | intros e; exact Hh].
Qed.

(** A pure step hands its value on: the continuation is only run on a
    value the operator really returned. *)
Lemma stable_lift_bind (I : state → Prop) (o : outcome A) (k : A → M B) :
  (∀ a, o = Ret a → stable I (k a)) → stable I (lift o ≫= k).
Proof.
  intros Hk s Hs. unfold mbind, M_bind, bind, lift.
  destruct o as [a|e]; simpl; [by apply Hk | done].
Qed.

Lemma stable_getitem_bind (I : state → Prop) sv path (k : pyval → M B) :
  (∀ v, stable (λ s, I s ∧ tree sv s !! path = Some v) (k v)) →
  stable I (getitem sv path ≫= k).
Proof.
  intros Hk s Hs. unfold mbind, M_bind, bind, getitem.
  destruct (tree sv s !! path) as [v|] eqn:E; simpl; [|done].
  by apply (Hk v s).
Qed.

End Logic.

Lemma stable_ret {A} (I : state → Prop) (a : A) : stable I (ret a).
Proof. by intros s Hs. Qed.

Lemma stable_raise {A} (I : state → Prop) e : stable I (@raise A e).
Proof. by intros s Hs. Qed.

Lemma stable_lift {A} (I : state → Prop) (o : outcome A) : stable I (lift o).
Proof. by intros s Hs. Qed.

Lemma stable_getitem (I : state → Prop) sv path : stable I (getitem sv path).
Proof.
  intros s Hs. unfold getitem. by destruct (tree sv s !! path).
Qed.

Lemma stable_queued (I : state → Prop) : stable I queued.
Proof. by intros s Hs. Qed.

Lemma stable_log (I : state → Prop) l msg :
  (∀ s, I s → I (add_log l msg s)) → stable I (log l msg).
Proof. intros H s Hs. by apply H. Qed.

Lemma stable_setitem (I : state → Prop) sv path v :
  (∀ s, I s → I (set_tree sv (<[path := v]> (tree sv s)) s)) →
  stable I (setitem sv path v).
Proof.
  intros H s Hs. unfold setitem.
  destruct (tree sv s !! path); simpl; [by apply H | done].
Qed.

Lemma stable_put_queue (I : state → Prop) q :
  (∀ s, I s → I (set_queue q s)) → stable I (put_queue q).
Proof. intros H s Hs. by apply H. Qed.

Lemma stable_for_each {A} (I : state → Prop) (l : list A) (body : A → M unit) :
  (∀ a, a ∈ l → stable I (body a)) → stable I (for_each l body).
Proof.
  induction l as [|a l IH]; intros Hb; simpl.
  - apply stable_ret.
  - apply stable_bind.
    + apply Hb. by left.
    + intros _. apply IH. intros b Hb'. apply Hb. by right.
Qed.

Lemma stable_collect {A B} (I : state → Prop) (l : list A) (f : A → M B) :
  (∀ a, stable I (f a)) → stable I (collect l f).
Proof.
  intros Hf. induction l as [|a l IH]; simpl.
  - apply stable_ret.
  - apply stable_bind; [apply Hf|]. intros b.
    apply stable_bind; [apply IH|]. intros bs. apply stable_ret.
Qed.

(** ** Facts about the operators *)

Lemma Some_compare_Eq (a b : Z) : Some (a ?= b) = Some Eq → a = b.
Proof. intros H. apply Z.compare_eq. congruence. Qed.

Lemma float_compare_Z_inj f n m :
  float_compare_Z f n = Some Eq → float_compare_Z f m = Some Eq → n = m.
Proof.
  unfold float_compare_Z. destruct (Prim2SF f) as [s|[]| |s p e]; try done.
  - intros Hn%Some_compare_Eq Hm%Some_compare_Eq. lia.
  - destruct (Z.leb_spec 0 e) as [He|He];
      intros Hn%Some_compare_Eq Hm%Some_compare_Eq; [lia|].
    assert (0 < 2 ^ (- e)) by (apply Z.pow_pos_nonneg; lia).
    apply (Z.mul_cancel_r _ _ (2 ^ (- e))); lia.
Qed.

(** A value equals at most one int literal. *)
Lemma py_eq_int_inj v n m :
  py_eq_int v n = true → py_eq_int v m = true → n = m.
Proof.
  unfold py_eq_int. destruct (as_num v) as [[a|f]|]; simpl; try done.
  - destruct (Z.compare_spec a n), (Z.compare_spec a m); try done. lia.
  - destruct (float_compare_Z f n) as [[]|] eqn:En; try done.
    destruct (float_compare_Z f m) as [[]|] eqn:Em; try done.
    intros _ _. by apply (float_compare_Z_inj f).
Qed.

Lemma py_eq_int_ne v n m : py_eq_int v n = true → n ≠ m → py_eq_int v m = false.
Proof.
  intros Hn Hne. destruct (py_eq_int v m) eqn:Hm; [|done].
  destruct Hne. by apply (py_eq_int_inj v).
Qed.

(** [0 & p] is 0 whenever it is defined. *)
Lemma py_and_int_0 p b : py_and_int 0 p = Ret b → b = 0.
Proof.
  unfold py_and_int. destruct (as_num p) as [[z|f]|]; try done.
  intros [= <-]. apply Z.land_0_l.
Qed.

(** The guard of the output current, as the source parses it, is false
    whenever it is evaluated at all. *)
Lemma guard_never_holds v p b :
  py_and_int 0 p = Ret b → py_ne_int v b && py_ne_int (VInt b) 0 = false.
Proof.
  intros ->%py_and_int_0. apply andb_false_r.
Qed.

(** [c]'s outcome is the same from every state. *)
Definition oblivious {A} (c : M A) : Prop := ∀ s s', (c s).1 = (c s').1.

Lemma oblivious_bind {A B} (c : M A) (k : A → M B) :
  oblivious c → (∀ a, oblivious (k a)) → oblivious (c ≫= k).
Proof.
  intros Hc Hk s s'. unfold mbind, M_bind, bind.
  specialize (Hc s s').
  destruct (c s) as [[a|e] s1], (c s') as [[a'|e'] s1']; simpl in *;
    try congruence.
  injection Hc as ->. apply Hk.
Qed.

Lemma oblivious_collect {A B} (l : list A) (f : A → M B) :
  (∀ a, oblivious (f a)) → oblivious (collect l f).
Proof.
  intros Hf. induction l as [|a l IH]; simpl; [by intros s s'|].
  apply oblivious_bind; [apply Hf|]. intros b.
  apply oblivious_bind; [apply IH|]. by intros bs s s'.
Qed.

(** ** Facts about the device exchange *)

Section Exchange.

Context {response : Type} (dev : transport response).

Lemma stable_send (I : state → Prop) protocol c :
  (∀ s, I s → I (add_sent c s)) → stable I (send dev protocol c).
Proof.
  intros H s Hs. unfold send.
  destruct (run_command dev protocol c); simpl; by apply H.
Qed.

(** The exchange touches nothing but the list of commands sent. *)
Lemma stable_runInverterCommands (I : state → Prop) commands protocol :
  (∀ c s, I s → I (add_sent c s)) →
  stable I (runInverterCommands dev commands protocol).
Proof.
  intros H. unfold runInverterCommands.
  apply stable_bind.
  { destruct (get_device dev protocol); [apply stable_ret | apply stable_raise]. }
  intros _. apply stable_bind.
  { apply stable_collect. intros c. apply stable_send. apply H. }
  intros results. apply stable_collect. intros r.
  destruct (to_json dev r); [apply stable_ret | apply stable_raise].
Qed.

(** The device answers [c]: the command runs and its response decodes. *)
Definition answers (protocol c : string) : Prop :=
  get_device dev protocol = true ∧
  ∃ r, run_command dev protocol c = Some r ∧ is_Some (to_json dev r).

Lemma runInverterCommands_one protocol c s :
  answers protocol c →
  ∃ j, runInverterCommands dev [c] protocol s = (Ret [j], add_sent c s).
Proof.
  intros (Hd & r & Hr & j & Hj). exists j.
  unfold runInverterCommands, mbind, M_bind, bind; simpl.
  rewrite Hd. unfold ret at 1. unfold mbind, M_bind, bind, send.
  rewrite Hr. simpl. by rewrite Hj.
Qed.

(** Whether, and with what, the exchange returns does not depend on the
    state it starts from. *)
Lemma runInverterCommands_outcome commands protocol :
  oblivious (runInverterCommands dev commands protocol).
Proof.
  unfold runInverterCommands.
  apply oblivious_bind.
  { destruct (get_device dev protocol); by intros s s'. }
  intros _. apply oblivious_bind.
  { apply oblivious_collect. intros c s s'. unfold send.
    by destruct (run_command dev protocol c). }
  intros results. apply oblivious_collect. intros r s s'.
  by destruct (to_json dev r).
Qed.

End Exchange.

(** ** Frame facts: what a step leaves alone *)

(** Path [k] of service [sv] holds [x] and no queued update targets [k]. *)
Definition kept (sv : service) (k : string) (x : option pyval) (s : state)
  : Prop :=
  tree sv s !! k = x ∧ k ∉ (_queued_updates s).*1.

Lemma kept_add_log sv k x l msg s : kept sv k x s → kept sv k x (add_log l msg s).
Proof. by destruct sv. Qed.

Lemma kept_add_sent sv k x c s : kept sv k x s → kept sv k x (add_sent c s).
Proof. by destruct sv. Qed.

Lemma kept_set_tree sv sv' k p v x s :
  sv ≠ sv' ∨ p ≠ k →
  kept sv k x s → kept sv k x (set_tree sv' (<[p := v]> (tree sv' s)) s).
Proof.
  intros Hne [Hk Hq]. split; [|by destruct sv'].
  destruct sv, sv', Hne as [?|?]; simpl in *; try done;
    by rewrite lookup_insert_ne.
Qed.

Lemma kept_set_queue_nil sv k x s : kept sv k x s → kept sv k x (set_queue [] s).
Proof.
  intros [Hk _]. split; [by destruct sv | apply not_elem_of_nil].
Qed.

Lemma stable_mainloop_quit (I : state → Prop) :
  (∀ s, I s → I (stop_mainloop s)) → stable I mainloop_quit.
Proof. intros H s Hs. by apply H. Qed.

Lemma stable_enqueue (I : state → Prop) pv :
  (∀ s, I s → I (set_queue (_queued_updates s ++ [pv]) s)) →
  stable I (q ← queued; put_queue (q ++ [pv])).
Proof. intros H s Hs. by apply H. Qed.

(** Decompose a sequence of statements into its steps. *)
Ltac frame_step :=
  match goal with
  | |- hoare ?I ?c (λ _, ?I) => change (stable I c)
  | |- stable _ (lift (py_and_int 0 _) ≫= _) =>
      apply stable_lift_bind;
      let b := fresh "b" in let Hb := fresh "Hb" in
      intros b Hb; apply py_and_int_0 in Hb; subst b;
      change (py_ne_int (VInt 0) 0) with false;
      rewrite andb_false_r; cbv iota
  | |- stable _ (lift _ ≫= _) =>
      apply stable_lift_bind; intros ? _
  | |- stable _ (queued ≫= λ q, put_queue (q ++ [_])) =>
      apply stable_enqueue; intros ?
  | |- stable _ (_ ≫= _) => apply stable_bind; [|intros ?]
  | |- stable _ (try_except _ _ _) => apply stable_try; [| |intros ?]
  | |- stable _ (if ?b then _ else _) => destruct b eqn:?
  | |- stable _ (match ?l with [] => _ | _ :: _ => _ end) => destruct l
  | |- stable _ (let _ := _ in _) => cbv zeta
  | |- stable _ (ret _) => apply stable_ret
  | |- stable _ (raise _) => apply stable_raise
  | |- stable _ (lift _) => apply stable_lift
  | |- stable _ (getitem _ _) => apply stable_getitem
  | |- stable _ queued => apply stable_queued
  | |- stable _ (runInverterCommands _ _ _) =>
      apply stable_runInverterCommands; intros ? ?
  | |- stable _ (log _ _) => apply stable_log; intros ?
  | |- stable _ (setitem _ _ _) => apply stable_setitem; intros ?
  | |- stable _ (put_queue _) => apply stable_put_queue; intros ?
  | |- stable _ (for_each _ _) => apply stable_for_each; intros ? ?
  | |- stable _ mainloop_quit => apply stable_mainloop_quit; intros ?
  end.

Ltac frame_kept :=
  repeat frame_step;
  try first
    [ apply kept_add_log
    | apply kept_add_sent
    | apply kept_set_queue_nil
    | apply kept_set_tree; first [left; discriminate | right; discriminate] ].

(** The merge writes nothing to a path that is not queued. *)
Lemma stable__updateInternal sv k x : stable (kept sv k x) _updateInternal.
Proof.
  intros s [Hk Hq].
  set (I' := λ s', tree sv s' !! k = x ∧ _queued_updates s' = _queued_updates s).
  assert (HI' : hoare I'
            (for_each (_queued_updates s) (λ pv,
               setitem Inverter pv.1 pv.2 ;; setitem Charger pv.1 pv.2) ;;
             put_queue [])
            (λ _, kept sv k x)).
  { eapply hoare_bind with (R := λ _, I').
    - apply stable_for_each. intros pv Hpv.
      assert (pv.1 ≠ k).
      { intros <-. apply Hq. apply list_elem_of_fmap. by exists pv. }
      assert (∀ sv' v s', I' s' →
                I' (set_tree sv' (<[pv.1 := v]> (tree sv' s')) s')) as Hset.
      { intros sv' v s' [Hk' Hq']. split; [|by destruct sv'].
        destruct sv, sv'; simpl in *; try done; by rewrite lookup_insert_ne. }
      apply stable_bind; [|intros _]; apply stable_setitem, Hset.
    - intros _ s' [Hk' Hq']. split; [by destruct sv | apply not_elem_of_nil].
    - intros e s' [Hk' Hq']. split; [done | by rewrite Hq']. }
  apply (HI' s). by split.
Qed.

Section Poll.

Context {response : Type} (dev : transport response).

(** One poll cycle writes a path only if it is one of those [_update_PI18]
    assigns or one that is queued. *)
Lemma stable__update_output_current x :
  stable (kept Inverter "/Ac/Out/L1/I" x) (_update dev).
Proof.
  unfold _update, _update_PI18.
  repeat frame_step; try apply stable__updateInternal; frame_kept.
Qed.

End Poll.

(** ** The invariant of the service *)

(** Only ['/Mode'] is ever queued, and both services have that path. The
    hypotheses on the queue made below hold in every state the service
    reaches. *)
Definition wf (s : state) : Prop :=
  (∀ pv, pv ∈ _queued_updates s → pv.1 = "/Mode")
  ∧ registered Inverter "/Mode" s
  ∧ registered Charger "/Mode" s.

Lemma wf_add_log l msg s : wf s → wf (add_log l msg s).
Proof. done. Qed.

Lemma wf_add_sent c s : wf s → wf (add_sent c s).
Proof. done. Qed.

Lemma wf_stop_mainloop s : wf s → wf (stop_mainloop s).
Proof. done. Qed.

Lemma wf_set_tree sv p v s :
  wf s → wf (set_tree sv (<[p := v]> (tree sv s)) s).
Proof.
  intros (Hq & Hi & Hc). unfold wf, registered in *.
  destruct sv; simpl; split_and!; try done;
    rewrite lookup_insert_is_Some; destruct (decide (p = "/Mode")); auto.
Qed.

Lemma wf_set_queue_nil s : wf s → wf (set_queue [] s).
Proof.
  intros (Hq & Hi & Hc). split_and!; try done.
  by intros pv ?%elem_of_nil.
Qed.

Lemma wf_enqueue v s :
  wf s → wf (set_queue (_queued_updates s ++ [("/Mode", v)]) s).
Proof.
  intros (Hq & Hi & Hc). split_and!; try done. simpl.
  intros pv [? | Hpv%list_elem_of_singleton]%elem_of_app; [auto|by subst].
Qed.

Ltac frame_wf :=
  repeat frame_step;
  try first
    [ apply wf_add_log
    | apply wf_add_sent
    | apply wf_stop_mainloop
    | apply wf_set_queue_nil
    | apply wf_set_tree ];
  try done.

Lemma wf_started : wf started.
Proof.
  split_and!; [|by eexists..]. by intros pv ?%elem_of_nil.
Qed.

Lemma wf__update {response} (dev : transport response) :
  stable wf (_update dev).
Proof. unfold _update, _update_PI18, _updateInternal. frame_wf. Qed.

Lemma wf__change {response} (dev : transport response) path value :
  stable wf (_change dev path value).
Proof.
  unfold _change, _change_PI18, setChargerPriority, setOutputSource.
  frame_wf.
  all: match goal with
       | H : String.eqb ?p "/Mode" = true |- _ =>
           apply String.eqb_eq in H; subst p
       end.
  all: by apply wf_enqueue.
Qed.

Lemma wf_queue_registered s : wf s → queue_registered s.
Proof. intros (Hq & Hi & Hc) pv Hpv. by rewrite (Hq pv Hpv). Qed.

Lemma wf_not_queued s k : wf s → k ≠ "/Mode" → k ∉ (_queued_updates s).*1.
Proof.
  intros (Hq & _) Hk (pv & -> & Hpv)%list_elem_of_fmap.
  by apply Hk, Hq.
Qed.

(** ** Running a sequence step by step *)

Lemma bind_Ret {A B} (c : M A) (k : A → M B) s a s1 :
  c s = (Ret a, s1) → (c ≫= k) s = k a s1.
Proof. intros H. unfold mbind, M_bind, bind. by rewrite H. Qed.

Lemma bind_Raise {A B} (c : M A) (k : A → M B) s e s1 :
  c s = (Raise e, s1) → (c ≫= k) s = (Raise e, s1).
Proof. intros H. unfold mbind, M_bind, bind. by rewrite H. Qed.

(** ** The write handler *)

Section Write.

Context {response : Type} (dev : transport response).

Lemma setChargerPriority_run n protocol s :
  answers dev "PI18" ("PCP" +:+ zfill 2 n) →
  ∃ j, setChargerPriority dev (VInt n) protocol s
       = (Ret [j], add_sent ("PCP" +:+ zfill 2 n) s).
Proof.
  intros H. destruct (runInverterCommands_one dev _ _ s H) as [j Hj].
  exists j. unfold setChargerPriority. by erewrite bind_Ret.
Qed.

Lemma setOutputSource_run n protocol s :
  answers dev "PI18" ("POP" +:+ zfill 2 n) →
  ∃ j, setOutputSource dev (VInt n) protocol s
       = (Ret [j], add_sent ("POP" +:+ zfill 2 n) s).
Proof.
  intros H. destruct (runInverterCommands_one dev _ _ s H) as [j Hj].
  exists j. unfold setOutputSource. by erewrite bind_Ret.
Qed.

(** What an accepted directive does, given its two priority codes. *)
Lemma directive_run v cp os msg s :
  answers dev "PI18" ("PCP" +:+ zfill 2 cp) →
  answers dev "PI18" ("POP" +:+ zfill 2 os) →
  ((setChargerPriority dev (VInt cp) "PI18" ;;
    setOutputSource dev (VInt os) "PI18" ;;
    log WARNING msg) ;;
   q ← queued; put_queue (q ++ [("/Mode", v)])) s
  = (Ret tt,
     State (_dbusinverter s) (_dbusmppt s)
       (_queued_updates s ++ [("/Mode", v)])
       (sent s ++ ["PCP" +:+ zfill 2 cp; "POP" +:+ zfill 2 os])
       (logged s ++ [(WARNING, msg)]) (mainloop_running s)).
Proof.
  intros Hcp Hos.
  destruct (setChargerPriority_run cp "PI18" s Hcp) as [j1 H1].
  destruct (setOutputSource_run os "PI18"
              (add_sent ("PCP" +:+ zfill 2 cp) s) Hos) as [j2 H2].
  erewrite bind_Ret.
  2: { erewrite bind_Ret by exact H1. erewrite bind_Ret by exact H2.
       reflexivity. }
  destruct s. unfold put_queue, add_log, add_sent, set_queue; simpl.
  by rewrite <- app_assoc.
Qed.

End Write.

Section WriteMode.

Context {response : Type} (dev : transport response).

(** A write to ['/Mode'] skips the three [/Link] tests. *)
Lemma _change_PI18_Mode v s :
  _change_PI18 dev "/Mode" v s
  = (((if py_eq_int v 1 then
         setChargerPriority dev (VInt 1) "PI18" ;;
         setOutputSource dev (VInt 1) "PI18" ;;
         log WARNING "setting mode to 'Charger Only'(Charger=Util) ({})"
       else if py_eq_int v 2 then
         setChargerPriority dev (VInt 0) "PI18" ;;
         setOutputSource dev (VInt 2) "PI18" ;;
         log WARNING
           "setting mode to 'Inverter Only'(Charger=Solar & Output=SBU) ({},{})"
       else if py_eq_int v 3 then
         setChargerPriority dev (VInt 1) "PI18" ;;
         setOutputSource dev (VInt 2) "PI18" ;;
         log WARNING
           "setting mode to 'ON=Charge+Invert'(Charger=Util & Output=SBU) ({},{})"
       else if py_eq_int v 4 then
         setChargerPriority dev (VInt 3) "PI18" ;;
         setOutputSource dev (VInt 2) "PI18" ;;
         log WARNING "setting mode to 'OFF'(Charger=Solar) ({})"
       else
         log WARNING "setting mode not understood ({})") ;;
      q ← queued; put_queue (q ++ [("/Mode", v)])) ;;
     ret true) s.
Proof. reflexivity. Qed.

(** C4. For v in {1,2,3,4}, a write of v to ['/Mode'] on a device that
    answers returns [True], hands the device exactly the two commands of the
    directive table, charger priority first and output source second
    (1: PCP01, POP01; 2: PCP00, POP02; 3: PCP01, POP02; 4: PCP03, POP02),
    and appends [('/Mode', v)] to the queue; neither service tree changes
    before the next merge. *)
Theorem mode_directive_issues_two_commands v n s :
  1 ≤ n ≤ 4 →
  py_eq_int v n = true →
  (∀ c, c ∈ mode_commands n → answers dev "PI18" c) →
  (_change_PI18 dev "/Mode" v s).1 = Ret true
  ∧ sent (_change_PI18 dev "/Mode" v s).2 = sent s ++ mode_commands n
  ∧ _queued_updates (_change_PI18 dev "/Mode" v s).2
    = _queued_updates s ++ [("/Mode", v)]
  ∧ _dbusinverter (_change_PI18 dev "/Mode" v s).2 = _dbusinverter s
  ∧ _dbusmppt (_change_PI18 dev "/Mode" v s).2 = _dbusmppt s.
Proof.
  intros Hn Hv Hans. rewrite _change_PI18_Mode.
  assert (n = 1 ∨ n = 2 ∨ n = 3 ∨ n = 4) as [-> | [-> | [-> | ->]]] by lia.
  all: clear Hn.
  all: rewrite ?(py_eq_int_ne v _ 1 Hv), ?(py_eq_int_ne v _ 2 Hv),
         ?(py_eq_int_ne v _ 3 Hv), ?Hv by done.
  all: erewrite bind_Ret;
    [| apply directive_run; apply Hans; cbn; set_solver ].
  all: done.
Qed.

(** C3, as the code has it. For v outside {1,2,3,4}, a write of v to
    ['/Mode'] logs the diagnostic and hands the device no command, but it is
    accepted like any other: it returns [True] and appends [('/Mode', v)] to
    the queue, so the next merge publishes v. *)
Theorem unmapped_mode_is_queued v s :
  (∀ n, 1 ≤ n ≤ 4 → py_eq_int v n = false) →
  _change_PI18 dev "/Mode" v s
  = (Ret true,
     State (_dbusinverter s) (_dbusmppt s)
       (_queued_updates s ++ [("/Mode", v)])
       (sent s)
       (logged s ++ [(WARNING, "setting mode not understood ({})")])
       (mainloop_running s)).
Proof.
  intros Hv. rewrite _change_PI18_Mode.
  rewrite !Hv by lia. reflexivity.
Qed.

End WriteMode.

(** C4 at v = 4 on the scenario device: PCP03, then POP02, then the queue. *)
Lemma mode_directive_issues_two_commands_witness :
  (_change_PI18 scenario_device "/Mode" (VInt 4) started).1 = Ret true
  ∧ sent (_change_PI18 scenario_device "/Mode" (VInt 4) started).2
    = sent started ++ ["PCP03"; "POP02"]
  ∧ _queued_updates (_change_PI18 scenario_device "/Mode" (VInt 4) started).2
    = _queued_updates started ++ [("/Mode", VInt 4)]
  ∧ _dbusinverter (_change_PI18 scenario_device "/Mode" (VInt 4) started).2
    = _dbusinverter started
  ∧ _dbusmppt (_change_PI18 scenario_device "/Mode" (VInt 4) started).2
    = _dbusmppt started.
Proof.
  apply (mode_directive_issues_two_commands scenario_device (VInt 4) 4 started).
  - lia.
  - reflexivity.
  - intros c Hc. split; [reflexivity|].
    exists ∅. split; [|by eexists].
    apply list_elem_of_In in Hc. simpl in Hc.
    destruct Hc as [<- | [<- | []]]; reflexivity.
Defined.

(** C3, the claim as stated fails: 5 is outside {1,2,3,4}, yet the write is
    accepted and queued, and the next poll cycle publishes 5 as ['/Mode'] of
    both services. *)
Lemma unmapped_mode_reaches_both_trees :
  (_change_PI18 scenario_device "/Mode" (VInt 5) started).1 = Ret true
  ∧ sent (_change_PI18 scenario_device "/Mode" (VInt 5) started).2
    = sent started
  ∧ _queued_updates (_change_PI18 scenario_device "/Mode" (VInt 5) started).2
    = [("/Mode", VInt 5)]
  ∧ _dbusinverter
      (_update scenario_device
         (_change_PI18 scenario_device "/Mode" (VInt 5) started).2).2
    !! "/Mode" = Some (VInt 5)
  ∧ _dbusmppt
      (_update scenario_device
         (_change_PI18 scenario_device "/Mode" (VInt 5) started).2).2
    !! "/Mode" = Some (VInt 5).
Proof. vm_compute. repeat split. Qed.

(** C3 as amended, at v = 5. *)
Lemma unmapped_mode_is_queued_witness :
  _change_PI18 scenario_device "/Mode" (VInt 5) started
  = (Ret true,
     State (_dbusinverter started) (_dbusmppt started)
       (_queued_updates started ++ [("/Mode", VInt 5)])
       (sent started)
       (logged started ++ [(WARNING, "setting mode not understood ({})")])
       (mainloop_running started)).
Proof.
  apply (unmapped_mode_is_queued scenario_device (VInt 5) started).
  intros n Hn.
  assert (n = 1 ∨ n = 2 ∨ n = 3 ∨ n = 4) as [-> | [-> | [-> | ->]]] by lia;
    reflexivity.
Defined.

(** ** The merge *)

Lemma store_all_lookup l t k :
  store_all l t !! k = match queued_value l k with
                       | Some v => Some v
                       | None => t !! k
                       end.
Proof.
  revert t. induction l as [|[p v] l IH]; intros t; [done|].
  change (store_all ((p, v) :: l) t) with (store_all l (<[p := v]> t)).
  rewrite IH. simpl. destruct (queued_value l k); [done|].
  destruct (decide (p = k)) as [->|Hne].
  - apply lookup_insert_eq.
  - by apply lookup_insert_ne.
Qed.

Lemma queued_value_None l k : k ∉ l.*1 → queued_value l k = None.
Proof.
  induction l as [|[p v] l IH]; [done|]. simpl.
  intros [Hne Hl]%not_elem_of_cons. rewrite (IH Hl).
  destruct (decide (p = k)); [by subst|done].
Qed.

Lemma for_each_store q s :
  (∀ pv, pv ∈ q → registered Inverter pv.1 s ∧ registered Charger pv.1 s) →
  for_each q (λ pv, setitem Inverter pv.1 pv.2 ;; setitem Charger pv.1 pv.2) s
  = (Ret tt,
     set_tree Charger (store_all q (_dbusmppt s))
       (set_tree Inverter (store_all q (_dbusinverter s)) s)).
Proof.
  revert s. induction q as [|[p v] q IH]; intros s H.
  - by destruct s.
  - destruct (H (p, v)) as [[x Hx] [y Hy]]; [by left|]. simpl in Hx, Hy.
    simpl for_each. erewrite bind_Ret.
    2: { erewrite bind_Ret.
         2: { unfold setitem. simpl. rewrite Hx. reflexivity. }
         unfold setitem. simpl. rewrite Hy. reflexivity. }
    rewrite IH; [by destruct s|].
    intros pv Hpv. destruct (H pv) as [Hi Hc]; [by right|].
    unfold registered in *. destruct s; simpl in *.
    rewrite !lookup_insert_is_Some. split; destruct (decide (p = pv.1)); auto.
Qed.

Lemma _updateInternal_run s :
  queue_registered s →
  _updateInternal s
  = (Ret tt,
     State (store_all (_queued_updates s) (_dbusinverter s))
       (store_all (_queued_updates s) (_dbusmppt s))
       [] (sent s) (logged s) (mainloop_running s)).
Proof.
  intros H. unfold _updateInternal.
  erewrite bind_Ret by reflexivity.
  erewrite bind_Ret by (apply for_each_store, H).
  by destruct s.
Qed.

(** C10. At a merge point whose queued paths exist in both services, every
    queued (path, value) is written, in queue order, to the inverter tree
    and to the charger tree alike (so for each queued path both trees end
    with the value queued last for it, ['/Mode'] of the charger included),
    and the queue is empty afterwards. *)
Theorem merge_writes_both_trees s :
  queue_registered s →
  (_updateInternal s).1 = Ret tt
  ∧ _dbusinverter (_updateInternal s).2
    = store_all (_queued_updates s) (_dbusinverter s)
  ∧ _dbusmppt (_updateInternal s).2
    = store_all (_queued_updates s) (_dbusmppt s)
  ∧ (∀ path value, queued_value (_queued_updates s) path = Some value →
       _dbusinverter (_updateInternal s).2 !! path = Some value
       ∧ _dbusmppt (_updateInternal s).2 !! path = Some value)
  ∧ _queued_updates (_updateInternal s).2 = [].
Proof.
  intros H. rewrite (_updateInternal_run s H). simpl.
  split_and!; try done.
  all: intros path value Hq; by rewrite !store_all_lookup, Hq.
Qed.

(** C10 with [('/Mode', 4)] pending: both trees get ['/Mode' = 4]. *)
Lemma merge_writes_both_trees_witness :
  (_updateInternal pending_off).1 = Ret tt
  ∧ _dbusinverter (_updateInternal pending_off).2
    = store_all [("/Mode", VInt 4)] (_dbusinverter pending_off)
  ∧ _dbusmppt (_updateInternal pending_off).2
    = store_all [("/Mode", VInt 4)] (_dbusmppt pending_off)
  ∧ (∀ path value, queued_value [("/Mode", VInt 4)] path = Some value →
       _dbusinverter (_updateInternal pending_off).2 !! path = Some value
       ∧ _dbusmppt (_updateInternal pending_off).2 !! path = Some value)
  ∧ _queued_updates (_updateInternal pending_off).2 = [].
Proof.
  apply (merge_writes_both_trees pending_off).
  intros pv Hpv. apply list_elem_of_In in Hpv. simpl in Hpv.
  destruct Hpv as [<- | []]. split; by eexists.
Defined.

(** ** The poll cycle *)

(** [s'] has the trees and the queue of [s]. *)
Definition same_data (s s' : state) : Prop :=
  _dbusinverter s' = _dbusinverter s
  ∧ _dbusmppt s' = _dbusmppt s
  ∧ _queued_updates s' = _queued_updates s.

Lemma same_data_registered s s' :
  same_data s s' → queue_registered s → queue_registered s'.
Proof.
  intros (Hi & Hc & Hq) H pv Hpv. rewrite Hq in Hpv.
  unfold registered. simpl. rewrite Hi, Hc. by apply H.
Qed.

Lemma hoare_pure {A} (φ : Prop) (P : state → Prop) (c : M A) Q :
  (φ → hoare P c Q) → hoare (λ s, φ ∧ P s) c Q.
Proof. intros H s [Hφ Hs]. by apply H. Qed.

Lemma hoare_outcome {A} (I : state → Prop) (c : M A) o :
  stable I c → (∀ s, (c s).1 = o) → hoare I c (λ o' s, o' = o ∧ I s).
Proof. intros Hc Ho s Hs. split; [apply Ho | by apply Hc]. Qed.

Lemma hoare_getitem_kept sv k v :
  hoare (kept sv k (Some v)) (getitem sv k)
    (λ o s, o = Ret v ∧ kept sv k (Some v) s).
Proof. intros s [Hk Hq]. unfold getitem. by rewrite Hk. Qed.

Lemma hoare_setitem_kept sv k old v :
  hoare (kept sv k (Some old)) (setitem sv k v) (λ _, kept sv k (Some v)).
Proof.
  intros s [Hk Hq]. unfold setitem. rewrite Hk. simpl.
  split; destruct sv; simpl; try done; apply lookup_insert_eq.
Qed.

Section Cycle.

Context {response : Type} (dev : transport response).

Lemma runInverterCommands_same_data commands protocol s :
  same_data s (runInverterCommands dev commands protocol s).2.
Proof.
  apply (stable_runInverterCommands dev (same_data s)); [|done].
  by intros c [] ?.
Qed.

(** C2, as the code has it. When the batch fails, the cycle still merges:
    it returns [True], every queued update is written to both services and
    the queue is cleared; nothing else changes, so with an empty queue the
    two trees are exactly those before the cycle. *)
Theorem failed_cycle_merges_queue s e :
  (runInverterCommands dev batch "PI18" s).1 = Raise e →
  queue_registered s →
  (_update dev s).1 = Ret true
  ∧ _dbusinverter (_update dev s).2
    = store_all (_queued_updates s) (_dbusinverter s)
  ∧ _dbusmppt (_update dev s).2
    = store_all (_queued_updates s) (_dbusmppt s)
  ∧ _queued_updates (_update dev s).2 = []
  ∧ (_queued_updates s = [] →
     _dbusinverter (_update dev s).2 = _dbusinverter s
     ∧ _dbusmppt (_update dev s).2 = _dbusmppt s).
Proof.
  intros Hfail Hreg.
  assert (∃ snt lg rn,
            _update dev s
            = (Ret true,
               State (store_all (_queued_updates s) (_dbusinverter s))
                 (store_all (_queued_updates s) (_dbusmppt s))
                 [] snt lg rn)) as (snt & lg & rn & Hrun).
  { unfold _update. erewrite bind_Ret by reflexivity.
    unfold try_except at 1. unfold _update_PI18, try_except at 1.
    fold batch.
    pose proof (runInverterCommands_same_data batch "PI18"
                  (add_log INFO "{} updating" s)) as Hsame.
    pose proof (runInverterCommands_outcome dev batch "PI18"
                  (add_log INFO "{} updating" s) s) as Hout.
    rewrite Hfail in Hout.
    destruct (runInverterCommands dev batch "PI18"
                (add_log INFO "{} updating" s)) as [o s2].
    simpl in Hout. subst o.
    destruct s2 as [i2 c2 q2 sent2 logged2 running2].
    destruct Hsame as (Hi & Hc & Hq). simpl in Hi, Hc, Hq. subst i2 c2 q2.
    erewrite bind_Ret by reflexivity.
    erewrite bind_Ret by (by apply _updateInternal_run).
    by eexists _, _, _. }
  rewrite Hrun. simpl. split_and!; try done.
  by intros ->.
Qed.

End Cycle.

(** C2, the claim as stated fails: with [('/Mode', 4)] pending and a device
    that does not answer, the failed cycle changes ['/Mode'] of both
    services from 0 to 4. *)
Lemma failed_cycle_publishes_pending_mode :
  (runInverterCommands silent_device batch "PI18" pending_off).1
  = Raise TransportError
  ∧ _queued_updates pending_off = [("/Mode", VInt 4)]
  ∧ _dbusinverter pending_off !! "/Mode" = Some (VInt 0)
  ∧ _dbusmppt pending_off !! "/Mode" = Some (VInt 0)
  ∧ _dbusinverter (_update silent_device pending_off).2 !! "/Mode"
    = Some (VInt 4)
  ∧ _dbusmppt (_update silent_device pending_off).2 !! "/Mode"
    = Some (VInt 4).
Proof. vm_compute. repeat split. Qed.

(** C2 as amended, on the same failed cycle. *)
Lemma failed_cycle_merges_queue_witness :
  (_update silent_device pending_off).1 = Ret true
  ∧ _dbusinverter (_update silent_device pending_off).2
    = store_all (_queued_updates pending_off) (_dbusinverter pending_off)
  ∧ _dbusmppt (_update silent_device pending_off).2
    = store_all (_queued_updates pending_off) (_dbusmppt pending_off)
  ∧ _queued_updates (_update silent_device pending_off).2 = []
  ∧ (_queued_updates pending_off = [] →
     _dbusinverter (_update silent_device pending_off).2
     = _dbusinverter pending_off
     ∧ _dbusmppt (_update silent_device pending_off).2
       = _dbusmppt pending_off).
Proof.
  apply (failed_cycle_merges_queue silent_device pending_off TransportError).
  - reflexivity.
  - intros pv Hpv. apply list_elem_of_In in Hpv. simpl in Hpv.
    destruct Hpv as [<- | []]. split; by eexists.
Defined.

Lemma run_state_code_branch {A} (w : pyval) (f : Z → A) :
  (if py_eq_str w "Battery mode" then f 9
   else if py_eq_str w "Fault mode" then f 2
   else f 0)
  = f (run_state_code w).
Proof.
  destruct w as [| | | |t]; try done. simpl.
  by destruct (String.eqb t "Battery mode"), (String.eqb t "Fault mode").
Qed.

Section CycleState.

Context {response : Type} (dev : transport response).

(** C6. After a poll cycle whose batch returned, ['/State'] of the inverter
    is the code of the decoded [working_mode]: 9 for "Battery mode", 2 for
    "Fault mode", 0 for anything else, whatever the other decoded fields
    are (also when a later statement of the cycle raises). *)
Theorem state_follows_working_mode s generated data mode rated w st :
  (runInverterCommands dev batch "PI18" s).1
  = Ret [generated; data; mode; rated] →
  mode !! "working_mode" = Some w →
  _dbusinverter s !! "/State" = Some st →
  "/State" ∉ (_queued_updates s).*1 →
  _dbusinverter (_update dev s).2 !! "/State"
  = Some (VInt (run_state_code w)).
Proof.
  intros Hbatch Hw Hst Hq.
  assert (∀ s', (runInverterCommands dev batch "PI18" s').1
                = Ret [generated; data; mode; rated]) as Hb.
  { intros s'. rewrite <- Hbatch. apply runInverterCommands_outcome. }
  set (before := kept Inverter "/State" (Some st)).
  set (after := kept Inverter "/State" (Some (VInt (run_state_code w)))).
  assert (hoare before
            (try_except (_update_PI18 dev)
               (log ERROR "Error in update loop" ;; _updateInternal ;; ret true)
               ret)
            (λ _, after)) as H.
  { apply hoare_try with (R := λ _, after).
    - unfold _update_PI18. fold batch.
      apply hoare_try
        with (R := λ o s', o = Ret [generated; data; mode; rated] ∧ before s').
      + apply hoare_outcome; [by frame_kept | exact Hb].
      + intros raw. apply hoare_pure. intros [= ->].
        apply hoare_bind with (R := λ o s', o = Ret st ∧ before s');
          [apply hoare_getitem_kept | | by intros e s' [? _]].
        intros v. apply hoare_pure. intros [= ->].
        unfold dict_get. rewrite Hw. simpl default.
        rewrite (run_state_code_branch w (λ z, setitem Inverter "/State" (VInt z))).
        apply hoare_bind with (R := λ _, after);
          [apply hoare_setitem_kept | | done].
        intros _.
        repeat frame_step; try apply stable__updateInternal; frame_kept.
      + intros e. apply hoare_pure. discriminate.
    - intros a. apply stable_ret.
    - intros e. repeat frame_step; try apply stable__updateInternal; frame_kept. }
  unfold _update. erewrite bind_Ret by reflexivity.
  by apply (H (add_log INFO "{} updating" s)).
Qed.

End CycleState.

(** C6 on the fault device: ['/State'] becomes 2, although the cycle is cut
    short by the [TypeError] of [0 & 500.0]. *)
Lemma state_follows_working_mode_witness :
  (runInverterCommands fault_device batch "PI18" started).1
  = Ret [ ∅;
          list_to_map
            [ ("battery_voltage", VFloat 48.0);
              ("ac_output_voltage", VFloat 0.0);
              ("ac_output_active_power", VFloat 500.0) ];
          {[ "working_mode" := VStr "Fault mode" ]};
          ∅ ]
  ∧ _dbusinverter (_update fault_device started).2 !! "/State"
    = Some (VInt 2).
Proof.
  split; [reflexivity|].
  eapply (state_follows_working_mode fault_device started)
    with (w := VStr "Fault mode") (st := VInt 0).
  - reflexivity.
  - reflexivity.
  - reflexivity.
  - apply not_elem_of_nil.
Defined.

(** C1, what the code does. The guard [V != 0 & P != 0] is the chain
    [V != (0 & P) != 0]; [0 & P] is 0 or a [TypeError], so the guard never
    holds and a poll cycle never assigns ['/Ac/Out/L1/I']. *)
Theorem output_current_never_derived {response} (dev : transport response) s :
  "/Ac/Out/L1/I" ∉ (_queued_updates s).*1 →
  _dbusinverter (_update dev s).2 !! "/Ac/Out/L1/I"
  = _dbusinverter s !! "/Ac/Out/L1/I".
Proof.
  intros Hq.
  by apply (stable__update_output_current dev
              (_dbusinverter s !! "/Ac/Out/L1/I") s).
Qed.

(** C1 at V = 230.0 and P = 500: the cycle publishes both, the two
    non-zero tests hold, the quotient would be 2.1739130434782608, and
    ['/Ac/Out/L1/I'] stays 0. *)
Lemma output_current_never_derived_witness :
  _dbusinverter (_update scenario_device started).2 !! "/Ac/Out/L1/V"
  = Some (VFloat 230.0)
  ∧ _dbusinverter (_update scenario_device started).2 !! "/Ac/Out/L1/P"
    = Some (VInt 500)
  ∧ py_ne_int (VFloat 230.0) 0 && py_ne_int (VInt 500) 0 = true
  ∧ py_truediv (VInt 500) (VFloat 230.0) = Ret (VFloat 2.1739130434782608)
  ∧ _dbusinverter started !! "/Ac/Out/L1/I" = Some (VInt 0)
  ∧ _dbusinverter (_update scenario_device started).2 !! "/Ac/Out/L1/I"
    = _dbusinverter started !! "/Ac/Out/L1/I".
Proof.
  do 5 (split; [reflexivity|]).
  apply (output_current_never_derived scenario_device started).
  apply not_elem_of_nil.
Defined.

(** ** The energy totals *)

Lemma hoare_skip {A B} (I : state → Prop) (c : M A) (k : A → M B) Q :
  stable I c →
  (∀ a, hoare I (k a) Q) →
  (∀ e s, I s → Q (Raise e) s) →
  hoare I (c ≫= k) Q.
Proof. intros Hc Hk He. by apply hoare_bind with (R := λ _, I). Qed.

Lemma hoare_lift_bind {A B} (P : state → Prop) (o : outcome A)
    (k : A → M B) Q :
  (∀ a, o = Ret a → hoare P (k a) Q) →
  (∀ e s, o = Raise e → P s → Q (Raise e) s) →
  hoare P (lift o ≫= k) Q.
Proof.
  intros Hk He s Hs. unfold mbind, M_bind, bind, lift.
  destruct o as [a|e]; simpl; [by apply Hk | by apply He].
Qed.

Lemma hoare_stable {A} (I : state → Prop) (c : M A)
    (Q : outcome A → state → Prop) :
  stable I c → (∀ o s, I s → Q o s) → hoare I c Q.
Proof. intros Hc HQ s Hs. by apply HQ, Hc. Qed.

(** Walk down a sequence, keeping the invariant, up to the read of [k]. *)
Ltac skip_to k :=
  repeat lazymatch goal with
    | |- hoare _ (getitem Charger k ≫= _) _ => fail
    | |- hoare _ (_ ≫= _) _ =>
        apply hoare_skip;
        [ repeat frame_step; frame_kept
        | intros ?
        | by intros ? ? _ [=] ]
    end.

(** The value a completed cycle leaves in a yield path [k]: the decoded
    total, or the prior value of [k] when the total is absent, divided by
    1000 in both cases. *)
Ltac yield_path k prior :=
  skip_to k;
  apply hoare_bind
    with (R := λ o s', o = Ret prior ∧ kept Charger k (Some prior) s');
    [ apply hoare_getitem_kept | | by intros ? ? [? _] ];
  intros ?; apply hoare_pure; intros [= ->];
  apply hoare_lift_bind; [| by intros ? ? _ _ [=] ];
  intros y Hy;
  apply hoare_bind with (R := λ _, kept Charger k (Some y));
    [ apply hoare_setitem_kept | | by intros ? ? _ [=] ];
  intros _;
  apply hoare_stable;
    [ repeat frame_step; try apply stable__updateInternal; frame_kept
    | intros ? ? ? _; by exists y ].

Section CycleYield.

Context {response : Type} (dev : transport response).
Context (generated data mode rated : gmap string pyval).
Hypothesis batch_returns :
  ∀ s, (runInverterCommands dev batch "PI18" s).1
       = Ret [generated; data; mode; rated].

Lemma yield_user_scaled prior :
  hoare (kept Charger "/Yield/User" (Some prior))
    (_update_PI18 dev)
    (λ o s',
       o = Ret true →
       ∃ y, py_truediv (dict_get generated "total_generated_energy" prior)
              (VInt 1000) = Ret y
            ∧ kept Charger "/Yield/User" (Some y) s').
Proof.
  unfold _update_PI18. fold batch.
  apply hoare_try
    with (R := λ o s', o = Ret [generated; data; mode; rated]
                       ∧ kept Charger "/Yield/User" (Some prior) s').
  - apply hoare_outcome; [by frame_kept | exact batch_returns].
  - intros raw. apply hoare_pure. intros [= ->].
    yield_path "/Yield/User" prior.
  - intros e. apply hoare_pure. discriminate.
Qed.

Lemma yield_system_scaled prior :
  hoare (kept Charger "/Yield/System" (Some prior))
    (_update_PI18 dev)
    (λ o s',
       o = Ret true →
       ∃ y, py_truediv (dict_get generated "total_generated_energy" prior)
              (VInt 1000) = Ret y
            ∧ kept Charger "/Yield/System" (Some y) s').
Proof.
  unfold _update_PI18. fold batch.
  apply hoare_try
    with (R := λ o s', o = Ret [generated; data; mode; rated]
                       ∧ kept Charger "/Yield/System" (Some prior) s').
  - apply hoare_outcome; [by frame_kept | exact batch_returns].
  - intros raw. apply hoare_pure. intros [= ->].
    yield_path "/Yield/System" prior.
  - intros e. apply hoare_pure. discriminate.
Qed.

End CycleYield.

(** C5, what the code does. On a cycle that runs to its end, ['/Yield/User']
    and ['/Yield/System'] are set to [generated.get('total_generated_energy',
    prior) / 1000]: the decoded total divided by 1000 when it is present, and
    the path's own prior value divided by 1000, not the prior value itself,
    when it is absent. *)
Theorem yield_divides_total_or_prior {response} (dev : transport response)
    s generated data mode rated user system :
  (runInverterCommands dev batch "PI18" s).1
  = Ret [generated; data; mode; rated] →
  _dbusmppt s !! "/Yield/User" = Some user →
  _dbusmppt s !! "/Yield/System" = Some system →
  "/Yield/User" ∉ (_queued_updates s).*1 →
  "/Yield/System" ∉ (_queued_updates s).*1 →
  (_update_PI18 dev s).1 = Ret true →
  ∃ yu ys,
    py_truediv (dict_get generated "total_generated_energy" user) (VInt 1000)
    = Ret yu
    ∧ py_truediv (dict_get generated "total_generated_energy" system)
        (VInt 1000) = Ret ys
    ∧ _dbusmppt (_update_PI18 dev s).2 !! "/Yield/User" = Some yu
    ∧ _dbusmppt (_update_PI18 dev s).2 !! "/Yield/System" = Some ys.
Proof.
  intros Hbatch Hu Hs Hqu Hqs Hret.
  assert (∀ s', (runInverterCommands dev batch "PI18" s').1
                = Ret [generated; data; mode; rated]) as Hb.
  { intros s'. rewrite <- Hbatch. apply runInverterCommands_outcome. }
  destruct (yield_user_scaled dev generated data mode rated Hb user s)
    as (yu & Hyu & Hku & _); [done..|].
  destruct (yield_system_scaled dev generated data mode rated Hb system s)
    as (ys & Hys & Hks & _); [done..|].
  by exists yu, ys.
Qed.

(** C5 at a record without the total, after 15.0 was published: the cycle
    replaces 15.0 by 15.0 / 1000. *)
Lemma yield_divides_total_or_prior_witness :
  _dbusmppt polled !! "/Yield/User" = Some (VFloat 15.0)
  ∧ _dbusmppt polled !! "/Yield/System" = Some (VFloat 15.0)
  ∧ _dbusmppt (_update no_energy_device polled).2 !! "/Yield/User"
    = Some (VFloat 0.015)
  ∧ _dbusmppt (_update no_energy_device polled).2 !! "/Yield/System"
    = Some (VFloat 0.015)
  ∧ ∃ yu ys,
      py_truediv (dict_get ∅ "total_generated_energy" (VFloat 15.0))
        (VInt 1000) = Ret yu
      ∧ py_truediv (dict_get ∅ "total_generated_energy" (VFloat 15.0))
          (VInt 1000) = Ret ys
      ∧ _dbusmppt (_update_PI18 no_energy_device polled).2 !! "/Yield/User"
        = Some yu
      ∧ _dbusmppt (_update_PI18 no_energy_device polled).2 !! "/Yield/System"
        = Some ys.
Proof.
  do 4 (split; [reflexivity|]).
  eapply (yield_divides_total_or_prior no_energy_device polled);
    try reflexivity; apply not_elem_of_nil.
Defined.

(** ** The current and voltage setters *)

(** [f] holds at c, c + 1, ..., c + n. *)
Fixpoint all_from (f : Z → bool) (n : nat) (c : Z) : bool :=
  f c && match n with
         | O => true
         | S k => all_from f k (c + 1)
         end.

Lemma all_from_spec f n c x :
  all_from f n c = true → c ≤ x ≤ c + Z.of_nat n → f x = true.
Proof.
  revert c. induction n as [|k IH]; intros c; simpl all_from.
  - intros [H _]%andb_true_iff Hx. by replace x with c by lia.
  - intros [H1 H2]%andb_true_iff Hx.
    destruct (decide (x = c)) as [->|Hne]; [done|].
    apply (IH (c + 1)); [done|lia].
Qed.

Definition rounds_to_nearest10 (c : Z) : bool :=
  match roundedCurrent (VInt c) with
  | Ret z => z =? nearest10 c
  | Raise _ => false
  end.

(** On ints, the float computation [round(c / 10) * 10] is the nearest
    multiple of 10 with ties to even: checked for every c up to the bound. *)
Lemma roundedCurrent_nearest10 c :
  0 ≤ c ≤ max_current → roundedCurrent (VInt c) = Ret (nearest10 c).
Proof.
  intros Hc.
  assert (rounds_to_nearest10 c = true) as H.
  { apply (all_from_spec _ (Z.to_nat max_current) 0).
    - vm_compute. reflexivity.
    - unfold max_current in *. lia. }
  unfold rounds_to_nearest10 in H.
  destruct (roundedCurrent (VInt c)) as [z|]; [|done].
  by apply Z.eqb_eq in H as ->.
Qed.

Example zfill_examples :
  zfill 4 20 = "0020" ∧ zfill 4 0 = "0000" ∧ zfill 4 9990 = "9990"
  ∧ zfill 3 7 = "007" ∧ zfill 3 125 = "125" ∧ zfill 2 3 = "03"
  ∧ zfill 0 552 = "552".
Proof. by vm_compute. Qed.

(** ** Rounding and truncation as the specification words them *)

(** [n] is the integer nearest to x * 2^e; when x * 2^e lies halfway
    between two integers, the even one. *)
Definition nearest_to (x e n : Z) : Prop :=
  if 0 <=? e then n = x * 2 ^ e
  else 2 * Z.abs (n * 2 ^ (- e) - x) ≤ 2 ^ (- e)
       ∧ (2 * Z.abs (n * 2 ^ (- e) - x) = 2 ^ (- e) → Z.even n = true).

(** [n] is the integer nearest to the finite float [q], ties to even. *)
Definition nearest_integer (q : float) (n : Z) : Prop :=
  match Prim2SF q with
  | S754_zero _ => n = 0
  | S754_finite s m e => nearest_to (if s then Zneg m else Zpos m) e n
  | S754_infinity _ | S754_nan => False
  end.


Lemma round_half_even_nearest m e n :
  0 < m → nearest_to m e n → round_half_even m e = n.
Proof.
  unfold nearest_to, round_half_even. intros Hm.
  destruct (0 <=? e) eqn:He; [done|].
  apply Z.leb_gt in He.
  assert (0 < 2 ^ (- e)) as Hd by (apply Z.pow_pos_nonneg; lia).
  set (d := 2 ^ (- e)) in *.
  pose proof (Z.div_mod m d ltac:(lia)) as Hdm.
  pose proof (Z.mod_pos_bound m d Hd) as Hr.
  set (q := m / d) in *. set (r := m mod d) in *.
  intros [Hnear Htie].
  assert (n * d - m = (n - q) * d - r) as Hk by lia.
  rewrite Hk in Hnear, Htie.
  assert (n - q = 0 ∨ n - q = 1) as [Hn|Hn] by nia.
  - rewrite Hn in Hnear, Htie.
    replace (0 * d - r) with (- r) in Hnear, Htie by lia.
    destruct (2 * r <? d) eqn:H1; [lia|]. apply Z.ltb_ge in H1.
    destruct (d <? 2 * r) eqn:H2; [apply Z.ltb_lt in H2; lia|].
    apply Z.ltb_ge in H2.
    replace n with q in * by lia.
    rewrite Htie by lia. done.
  - rewrite Hn in Hnear, Htie.
    destruct (2 * r <? d) eqn:H1; [apply Z.ltb_lt in H1; lia|].
    apply Z.ltb_ge in H1.
    destruct (d <? 2 * r) eqn:H2; [lia|]. apply Z.ltb_ge in H2.
    replace n with (q + 1) in * by lia.
    specialize (Htie ltac:(lia)).
    rewrite Z.add_1_r, Z.even_succ in Htie.
    rewrite <- Z.negb_odd, Htie. simpl. lia.
Qed.

Lemma nearest_to_opp x e n : nearest_to (- x) e n → nearest_to x e (- n).
Proof.
  unfold nearest_to. destruct (0 <=? e); [lia|].
  rewrite Z.even_opp.
  replace (- n * 2 ^ (- e) - x) with (- (n * 2 ^ (- e) - - x)) by lia.
  by rewrite Z.abs_opp.
Qed.

(** [round(q)] is the nearest integer, ties to even. *)
Lemma py_round_nearest q n :
  nearest_integer q n → py_round (NFloat q) = Ret n.
Proof.
  unfold nearest_integer, py_round, float_to_Z.
  destruct (Prim2SF q) as [|[]| |[] m e]; try done.
  - by intros ->.
  - intros H. apply (nearest_to_opp (Zpos m)) in H.
    apply round_half_even_nearest in H; [|lia].
    rewrite H. f_equal. lia.
  - intros H. apply round_half_even_nearest in H; [|lia]. by rewrite H.
Qed.

Lemma roundedCurrent_nearest v q n :
  py_truediv v (VInt 10) = Ret (VFloat q) →
  nearest_integer q n →
  roundedCurrent v = Ret (n * 10).
Proof.
  intros Hq Hn. unfold roundedCurrent. rewrite Hq. cbn [obind as_num].
  by rewrite (py_round_nearest q n Hn).
Qed.



Example int_of_str_examples :
  int_of_str "55" = Ret 55 ∧ int_of_str " -5_5 " = Ret (-55)
  ∧ int_of_str "+007" = Ret 7 ∧ int_of_str "5__5" = Raise ValueError
  ∧ int_of_str "5 5" = Raise ValueError ∧ int_of_str "- 5" = Raise ValueError
  ∧ int_of_str "5.0" = Raise ValueError ∧ int_of_str "_5" = Raise ValueError
  ∧ int_of_str "5_" = Raise ValueError ∧ int_of_str EmptyString = Raise ValueError.
Proof. by vm_compute. Qed.

Section Setters.

Context {response : Type} (dev : transport response).

(** C8, as amended. Setting the max charging current runs exactly one
    command: the prefix (MCHGC0 under PI18, MNCHGC0 under any other variant,
    the parallel-unit digit being the 0) followed by [round(c / 10) * 10]
    zero-padded to 4 digits. For every int or float c whose quotient c / 10
    is a finite float q, that value is ten times the integer nearest to q,
    ties to even; for every int c from 0 to [max_current] it is the
    multiple of 10 nearest to c, ties to the even number of tens. *)
Theorem max_charging_current_encoding protocol v s :
  (∀ q n,
     py_truediv v (VInt 10) = Ret (VFloat q) →
     nearest_integer q n →
     setMaxChargingCurrent dev v protocol s
     = runInverterCommands dev
         [(if String.eqb protocol "PI18" then "MCHGC0" else "MNCHGC0")
          +:+ zfill 4 (n * 10)]
         protocol s)
  ∧ (∀ c,
       v = VInt c →
       0 ≤ c ≤ max_current →
       setMaxChargingCurrent dev v protocol s
       = runInverterCommands dev
           [(if String.eqb protocol "PI18" then "MCHGC0" else "MNCHGC0")
            +:+ zfill 4 (nearest10 c)]
           protocol s).
Proof.
  split.
  - intros q n Hq Hn. unfold setMaxChargingCurrent.
    rewrite (roundedCurrent_nearest v q n Hq Hn).
    by destruct (String.eqb protocol "PI18").
  - intros c -> Hc. unfold setMaxChargingCurrent.
    rewrite (roundedCurrent_nearest10 c Hc).
    by destruct (String.eqb protocol "PI18").
Qed.

(** C7, as amended. Setting the max utility charging current: under PI18
    the one command is MUCHGC0 followed by [max(2, round(c / 10) * 10)]
    zero-padded to 4 digits, the rounded value being as for the max charging
    current; under any other variant it is MUCHGC followed by c itself,
    neither rounded nor clamped, zero-padded to 3 digits, when c is an int,
    and a float c is refused with [ValueError] before anything is sent. *)
Theorem max_utility_charging_current_encoding protocol v s :
  (∀ q n,
     py_truediv v (VInt 10) = Ret (VFloat q) →
     nearest_integer q n →
     setMaxUtilityChargingCurrent dev v protocol s
     = if String.eqb protocol "PI18"
       then runInverterCommands dev
              ["MUCHGC0" +:+ zfill 4 (Z.max 2 (n * 10))] protocol s
       else match v with
            | VInt c =>
                runInverterCommands dev ["MUCHGC" +:+ zfill 3 c] "PI18" s
            | VBool b =>
                runInverterCommands dev
                  ["MUCHGC" +:+ zfill 3 (if b then 1 else 0)] "PI18" s
            | VFloat _ | VStr _ | VNone => (Raise ValueError, s)
            end)
  ∧ (∀ c,
       v = VInt c →
       0 ≤ c ≤ max_current →
       setMaxUtilityChargingCurrent dev v protocol s
       = if String.eqb protocol "PI18"
         then runInverterCommands dev
                ["MUCHGC0" +:+ zfill 4 (Z.max 2 (nearest10 c))] protocol s
         else runInverterCommands dev ["MUCHGC" +:+ zfill 3 c] "PI18" s).
Proof.
  split.
  - intros q n Hq Hn. unfold setMaxUtilityChargingCurrent.
    rewrite (roundedCurrent_nearest v q n Hq Hn).
    destruct (String.eqb protocol "PI18"); [done|].
    destruct v; try done.
  - intros c -> Hc. unfold setMaxUtilityChargingCurrent.
    rewrite (roundedCurrent_nearest10 c Hc).
    by destruct (String.eqb protocol "PI18").
Qed.


End Setters.

(** The quotient 25 / 10 is 2.5, halfway between 2 and 3: the nearest
    integer is the even one. *)
Lemma nearest_integer_2_5 : nearest_integer 2.5 2.
Proof.
  unfold nearest_integer, nearest_to. vm_compute. split; [discriminate|done].
Qed.

(** C8, the claim as stated fails: at c = 2^63 the quotient c / 10 is
    rounded to binary64 before [round], and the command carries
    9223372036854776320 where the multiple of 10 nearest to c is
    9223372036854775810. *)
Lemma huge_current_misses_nearest_multiple :
  nearest10 9223372036854775808 = 9223372036854775810
  ∧ sent (setMaxChargingCurrent scenario_device (VInt 9223372036854775808)
            "PI18" started).2
    = sent started ++ ["MCHGC09223372036854776320"].
Proof. vm_compute. repeat split. Qed.

(** C8 as amended, at c = 25 (an int under PI18, a float under another
    variant): 2.5 rounds to 2. *)
Lemma max_charging_current_encoding_witness :
  sent (setMaxChargingCurrent scenario_device (VInt 25) "PI18" started).2
  = sent started ++ ["MCHGC00020"]
  ∧ sent (setMaxChargingCurrent scenario_device (VFloat 25) "PI30" started).2
    = sent started ++ ["MNCHGC00020"]
  ∧ setMaxChargingCurrent scenario_device (VFloat 25) "PI30" started
    = runInverterCommands scenario_device
        [(if String.eqb "PI30" "PI18" then "MCHGC0" else "MNCHGC0")
         +:+ zfill 4 (2 * 10)]
        "PI30" started
  ∧ setMaxChargingCurrent scenario_device (VInt 25) "PI18" started
    = runInverterCommands scenario_device
        [(if String.eqb "PI18" "PI18" then "MCHGC0" else "MNCHGC0")
         +:+ zfill 4 (nearest10 25)]
        "PI18" started.
Proof.
  do 2 (split; [reflexivity|]).
  split.
  - apply (max_charging_current_encoding scenario_device "PI30"
             (VFloat 25) started) with (q := 2.5%float).
    + reflexivity.
    + exact nearest_integer_2_5.
  - apply (max_charging_current_encoding scenario_device "PI18"
             (VInt 25) started); [reflexivity|].
    unfold max_current. lia.
Defined.

(** C7, the claim as stated fails: at c = 2^63 the PI18 command carries
    9223372036854776320, not the nearest multiple of 10; and under another
    variant the float 4.0 is refused, no command being sent. *)
Lemma utility_current_misses_nearest_multiple :
  Z.max 2 (nearest10 9223372036854775808) = 9223372036854775810
  ∧ sent (setMaxUtilityChargingCurrent scenario_device
            (VInt 9223372036854775808) "PI18" started).2
    = sent started ++ ["MUCHGC09223372036854776320"]
  ∧ (setMaxUtilityChargingCurrent scenario_device (VFloat 4) "PI30"
       started).1 = Raise ValueError
  ∧ sent (setMaxUtilityChargingCurrent scenario_device (VFloat 4) "PI30"
            started).2 = sent started.
Proof. vm_compute. repeat split. Qed.

(** C7 as amended, at c = 4: the PI18 command carries the floor 2, any
    other variant carries 4 itself; and at c = 25.0 under PI18. *)
Lemma max_utility_charging_current_encoding_witness :
  sent (setMaxUtilityChargingCurrent scenario_device (VInt 4) "PI18" started).2
  = sent started ++ ["MUCHGC00002"]
  ∧ sent (setMaxUtilityChargingCurrent scenario_device (VInt 4) "PI30"
            started).2
    = sent started ++ ["MUCHGC004"]
  ∧ setMaxUtilityChargingCurrent scenario_device (VFloat 25) "PI18" started
    = (if String.eqb "PI18" "PI18"
       then runInverterCommands scenario_device
              ["MUCHGC0" +:+ zfill 4 (Z.max 2 (2 * 10))] "PI18" started
       else (Raise ValueError, started))
  ∧ setMaxUtilityChargingCurrent scenario_device (VInt 4) "PI30" started
    = if String.eqb "PI30" "PI18"
      then runInverterCommands scenario_device
             ["MUCHGC0" +:+ zfill 4 (Z.max 2 (nearest10 4))] "PI30" started
      else runInverterCommands scenario_device ["MUCHGC" +:+ zfill 3 4]
             "PI18" started.
Proof.
  do 2 (split; [reflexivity|]).
  split.
  - apply (max_utility_charging_current_encoding scenario_device "PI18"
             (VFloat 25) started) with (q := 2.5%float).
    + reflexivity.
    + exact nearest_integer_2_5.
  - apply (max_utility_charging_current_encoding scenario_device "PI30"
             (VInt 4) started); [reflexivity|].
    unfold max_current. lia.
Defined.

(** A str voltage is repeated ten times before [int()] reads it. *)
Example str_voltage_is_repeated :
  sent (setMaxChargingVoltage scenario_device (VStr "55") "PI18" started).2
  = sent started ++ ["MCHGV55555555555555555555,55555555555555555555"]
  ∧ (setMaxChargingVoltage scenario_device (VStr "5.5") "PI18" started).1
    = Raise ValueError
  ∧ (setMaxChargingVoltage scenario_device VNone "PI18" started).1
    = Raise TypeError.
Proof. vm_compute. repeat split. Qed.



(** * Further properties of the code *)

(** ** The device exchange, [runInverterCommands] *)

(** [s] with [l] appended to the commands sent. *)
Definition add_sents (l : list string) (s : state) : state :=
  State (_dbusinverter s) (_dbusmppt s) (_queued_updates s) (sent s ++ l)
    (logged s) (mainloop_running s).

Lemma add_sents_nil s : add_sents [] s = s.
Proof. destruct s. unfold add_sents. simpl. by rewrite app_nil_r. Qed.

Lemma add_sents_cons c l s : add_sents l (add_sent c s) = add_sents (c :: l) s.
Proof.
  destruct s. unfold add_sents, add_sent. simpl. by rewrite <- app_assoc.
Qed.

Section ExchangeRuns.

Context {response : Type} (dev : transport response).

(** Sending stops at the first command the device does not run. *)
Lemma collect_send_prefix protocol l s :
  ∃ k, (k ≤ length l)%nat
       ∧ (collect l (send dev protocol) s).2 = add_sents (take k l) s
       ∧ ∀ rs, (collect l (send dev protocol) s).1 = Ret rs →
               k = length l ∧ length rs = length l.
Proof.
  revert s. induction l as [|c l IH]; intros s.
  - exists 0%nat. simpl. rewrite add_sents_nil.
    split_and!; [lia | done | by intros ? [= <-]].
  - destruct (run_command dev protocol c) as [r|] eqn:Hc.
    + assert (send dev protocol c s = (Ret r, add_sent c s)) as Hsend.
      { unfold send. by rewrite Hc. }
      simpl collect. erewrite bind_Ret by exact Hsend.
      destruct (IH (add_sent c s)) as (k & Hk & Hs & Hr).
      exists (S k). split; [simpl; lia|].
      unfold mbind, M_bind, bind.
      destruct (collect l (send dev protocol) (add_sent c s)) as [[rs|e] s1];
        simpl in *; subst s1; rewrite add_sents_cons; (split; [done|]).
      * intros rs' [= <-].
        destruct (Hr rs eq_refl) as [Hk' Hl]. simpl. lia.
      * done.
    + assert (send dev protocol c s = (Raise TransportError, add_sent c s))
        as Hsend.
      { unfold send. by rewrite Hc. }
      simpl collect. erewrite bind_Raise by exact Hsend.
      exists 1%nat. simpl. split; [lia|]. rewrite take_0.
      split; [|done]. by destruct s.
Qed.

Lemma collect_decode_pure (rs : list response) s :
  (collect rs (λ r, match to_json dev r with
                    | Some j => ret j
                    | None => raise DecodeError
                    end) s).2 = s
  ∧ ∀ js, (collect rs (λ r, match to_json dev r with
                            | Some j => ret j
                            | None => raise DecodeError
                            end) s).1 = Ret js →
          length js = length rs.
Proof.
  induction rs as [|r rs [IH1 IH2]].
  { split; [done|]. by intros ? [= <-]. }
  simpl collect. unfold mbind, M_bind, bind.
  destruct (to_json dev r) as [j|]; [|done]. simpl.
  destruct (collect rs _ s) as [[js|e] s1]; simpl in *; subst s1;
    (split; [done|]); [|done].
  intros ? [= <-]. simpl. by rewrite (IH2 js).
Qed.

Lemma runInverterCommands_prefix commands protocol s :
  ∃ k, (k ≤ length commands)%nat
       ∧ (runInverterCommands dev commands protocol s).2
         = add_sents (take k commands) s
       ∧ ∀ parsed,
           (runInverterCommands dev commands protocol s).1 = Ret parsed →
           k = length commands ∧ length parsed = length commands.
Proof.
  unfold runInverterCommands, mbind, M_bind, bind.
  destruct (get_device dev protocol); simpl.
  - destruct (collect_send_prefix protocol commands s) as (k & Hk & Hs & Hr).
    exists k. split; [done|].
    destruct (collect commands (send dev protocol) s) as [[rs|e] s1];
      simpl in *; [|done].
    destruct (collect_decode_pure rs s1) as [Hd1 Hd2].
    rewrite Hd1. split; [done|]. intros parsed Hp.
    destruct (Hr rs eq_refl) as [-> Hl]. split; [done|].
    rewrite <- Hl. by apply Hd2.
  - exists 0%nat. split; [lia|]. by rewrite take_0, add_sents_nil.
Qed.

(** X1. Whatever the device does, the exchange hands it a prefix of the
    command list, in order, and changes nothing else in the state; when it
    returns, every command was sent and there is one decoded record for
    each. *)
Theorem exchange_sends_prefix commands protocol s :
  ∃ k, (k ≤ length commands)%nat
       ∧ (runInverterCommands dev commands protocol s).2
         = add_sents (take k commands) s
       ∧ ∀ parsed,
           (runInverterCommands dev commands protocol s).1 = Ret parsed →
           k = length commands ∧ length parsed = length commands.
Proof. apply runInverterCommands_prefix. Qed.

Lemma collect_send_all protocol l rs s :
  mapM (run_command dev protocol) l = Some rs →
  collect l (send dev protocol) s = (Ret rs, add_sents l s).
Proof.
  revert rs s. induction l as [|c l IH]; intros rs s.
  - intros [= <-]. simpl. by rewrite add_sents_nil.
  - intros H. apply mapM_Some in H.
    apply Forall2_cons_inv_l in H as (r & rs' & Hr & Hrs & ->).
    apply mapM_Some in Hrs.
    simpl collect.
    erewrite bind_Ret by (unfold send; rewrite Hr; reflexivity).
    erewrite bind_Ret by (by apply IH).
    unfold ret. by rewrite add_sents_cons.
Qed.

Lemma collect_decode_fails (rs : list response) s :
  mapM (to_json dev) rs = None →
  collect rs (λ r, match to_json dev r with
                   | Some j => ret j
                   | None => raise DecodeError
                   end) s = (Raise DecodeError, s).
Proof.
  induction rs as [|r rs IH]; [done|].
  intros H. simpl collect. unfold mbind, M_bind, bind.
  destruct (to_json dev r) as [j|] eqn:Hj; [|done]. simpl.
  destruct (mapM (to_json dev) rs) as [js|] eqn:Hjs.
  - exfalso. apply mapM_Some in Hjs.
    assert (mapM (to_json dev) (r :: rs) = Some (j :: js)) as H'.
    { apply mapM_Some. by constructor. }
    congruence.
  - by rewrite IH.
Qed.

Lemma exchange_decode_fails commands protocol rs s :
  get_device dev protocol = true →
  mapM (run_command dev protocol) commands = Some rs →
  mapM (to_json dev) rs = None →
  runInverterCommands dev commands protocol s
  = (Raise DecodeError, add_sents commands s).
Proof.
  intros Hd Hrs Hjs. unfold runInverterCommands.
  rewrite Hd. erewrite bind_Ret by reflexivity.
  erewrite bind_Ret by (by apply collect_send_all).
  by apply collect_decode_fails.
Qed.

(** X2. Decoding starts only after the whole list was run: when the device
    runs every command but one response does not decode, all commands were
    sent before [DecodeError] is raised. *)
Theorem decode_error_after_all_sent commands protocol rs s :
  get_device dev protocol = true →
  mapM (run_command dev protocol) commands = Some rs →
  mapM (to_json dev) rs = None →
  runInverterCommands dev commands protocol s
  = (Raise DecodeError, add_sents commands s).
Proof. apply exchange_decode_fails. Qed.

(** X3. The device object is built before anything is sent, and sending
    stops at the first command that fails: the commands after it never
    reach the device. *)
Theorem transport_error_stops_sending protocol ran c rest rs s :
  mapM (run_command dev protocol) ran = Some rs →
  run_command dev protocol c = None →
  runInverterCommands dev (ran ++ c :: rest) protocol s
  = (Raise TransportError,
     if get_device dev protocol then add_sents (ran ++ [c]) s else s).
Proof.
  intros Hrs Hc. unfold runInverterCommands.
  destruct (get_device dev protocol); [|done].
  erewrite bind_Ret by reflexivity.
  apply bind_Raise.
  revert rs s Hrs. induction ran as [|d l IH]; intros rs s Hrs.
  - simpl.
    erewrite bind_Raise by (unfold send; rewrite Hc; reflexivity).
    by destruct s.
  - apply mapM_Some in Hrs.
    apply Forall2_cons_inv_l in Hrs as (r & rs' & Hr & Hrs & ->).
    apply mapM_Some in Hrs.
    simpl.
    erewrite bind_Ret by (unfold send; rewrite Hr; reflexivity).
    erewrite bind_Raise by (by eapply IH).
    by rewrite add_sents_cons.
Qed.

End ExchangeRuns.

(** A device that runs every command but whose answer to MOD does not
    decode. *)
Definition garbled_device : transport string :=
  Transport _
    (λ _, true)
    (λ _ c, Some c)
    (λ r, if String.eqb r "MOD" then None else Some ∅).

(** A device that stops answering at GS. *)
Definition stalling_device : transport string :=
  Transport _
    (λ _, true)
    (λ _ c, if String.eqb c "GS" then None else Some c)
    (λ _, Some ∅).

(** X2 on the batch of a poll cycle: all four queries are sent. *)
Lemma decode_error_after_all_sent_witness :
  runInverterCommands garbled_device batch "PI18" started
  = (Raise DecodeError, add_sents ["ET"; "GS"; "MOD"; "PIRI"] started).
Proof.
  apply (decode_error_after_all_sent garbled_device batch "PI18"
           ["ET"; "GS"; "MOD"; "PIRI"] started); reflexivity.
Defined.

(** X3 on the batch of a poll cycle: MOD and PIRI are never sent. *)
Lemma transport_error_stops_sending_witness :
  runInverterCommands stalling_device (["ET"] ++ "GS" :: ["MOD"; "PIRI"])
    "PI18" started
  = (Raise TransportError, add_sents ["ET"; "GS"] started).
Proof.
  apply (transport_error_stops_sending stalling_device "PI18"
           ["ET"] "GS" ["MOD"; "PIRI"] ["ET"] started); reflexivity.
Defined.

(** ** The write callback, [_change] *)

Section Callback.

Context {response : Type} (dev : transport response).

(** X4. A write to any path but ['/Mode'] is accepted and ignored: it
    returns [True], sends nothing, queues nothing and leaves both trees
    alone. That covers ['/Settings/Charger'] and ['/Settings/Output'], the
    paths the callback is registered on. A write to ['/Settings/Reset']
    stops the main loop and is then handled like the others. *)
Theorem other_paths_are_ignored path value s :
  path ≠ "/Mode" →
  (_change dev path value s).1 = Ret true
  ∧ _dbusinverter (_change dev path value s).2 = _dbusinverter s
  ∧ _dbusmppt (_change dev path value s).2 = _dbusmppt s
  ∧ _queued_updates (_change dev path value s).2 = _queued_updates s
  ∧ sent (_change dev path value s).2 = sent s
  ∧ mainloop_running (_change dev path value s).2
    = (if String.eqb path "/Settings/Reset" then false
       else mainloop_running s).
Proof.
  intros Hp. unfold _change, _change_PI18.
  destruct (String.eqb_spec path "/Mode") as [?|_]; [done|].
  destruct (String.eqb path "/Settings/Reset"),
    (String.eqb path "/Link"), (String.eqb path "/Link/ChargeCurrent");
    by destruct s.
Qed.

(** X5. The write callback itself never writes to a service tree, whatever
    the path, the value and the device: both trees are after [_change] what
    they were before it. *)
Theorem change_leaves_trees path value s :
  _dbusinverter (_change dev path value s).2 = _dbusinverter s
  ∧ _dbusmppt (_change dev path value s).2 = _dbusmppt s.
Proof.
  set (I := λ s', _dbusinverter s' = _dbusinverter s
                  ∧ _dbusmppt s' = _dbusmppt s).
  assert (stable I (_change dev path value)) as H.
  { unfold _change, _change_PI18, setChargerPriority, setOutputSource.
    repeat frame_step; unfold I;
      by match goal with x : state |- _ => destruct x end. }
  by apply (H s).
Qed.

Lemma runInverterCommands_one_cases protocol c s :
  (answers dev protocol c
   ∧ ∃ j, runInverterCommands dev [c] protocol s = (Ret [j], add_sent c s))
  ∨ (¬ answers dev protocol c
     ∧ ∃ e l, runInverterCommands dev [c] protocol s
              = (Raise e, add_sents l s)).
Proof.
  destruct (get_device dev protocol) eqn:Hd.
  2: { right. split; [intros [? _]; congruence|].
       exists TransportError, []. rewrite add_sents_nil.
       unfold runInverterCommands. by rewrite Hd. }
  destruct (run_command dev protocol c) as [r|] eqn:Hr.
  2: { right. split; [intros (_ & ? & ? & _); congruence|].
       exists TransportError, [c].
       unfold runInverterCommands. rewrite Hd.
       erewrite bind_Ret by reflexivity. simpl collect.
       erewrite bind_Raise; [|erewrite bind_Raise; [done|]]; [done|].
       unfold send. by rewrite Hr. }
  destruct (to_json dev r) as [j|] eqn:Hj.
  - assert (answers dev protocol c) as Ha.
    { split; [done|]. exists r. split; [done|]. by exists j. }
    left. split; [done|]. by apply runInverterCommands_one.
  - right. split.
    { intros (_ & r' & Hr' & j' & Hj'). congruence. }
    exists DecodeError, [c].
    rewrite (exchange_decode_fails dev [c] protocol [r] s); try done.
    + simpl. by rewrite Hr.
    + simpl. by rewrite Hj.
Qed.

(** A directive whose two commands are not both answered raises; only the
    list of commands sent has changed. *)
Lemma directive_fails cp os msg s :
  ¬ answers dev "PI18" ("PCP" +:+ zfill 2 cp)
  ∨ ¬ answers dev "PI18" ("POP" +:+ zfill 2 os) →
  ∃ e l,
    (setChargerPriority dev (VInt cp) "PI18" ;;
     setOutputSource dev (VInt os) "PI18" ;;
     log WARNING msg) s = (Raise e, add_sents l s).
Proof.
  intros Hno.
  unfold setChargerPriority, setOutputSource.
  destruct (runInverterCommands_one_cases "PI18" ("PCP" +:+ zfill 2 cp) s)
    as [(Ha & j & Hrun) | (_ & e & l & Hrun)].
  - destruct Hno as [Hno|Hno]; [done|].
    destruct (runInverterCommands_one_cases "PI18" ("POP" +:+ zfill 2 os)
                (add_sent ("PCP" +:+ zfill 2 cp) s))
      as [(Ha' & _) | (_ & e & l & Hrun')]; [done|].
    exists e, (("PCP" +:+ zfill 2 cp) :: l).
    erewrite bind_Ret by (erewrite bind_Ret by reflexivity; exact Hrun).
    erewrite bind_Raise by (erewrite bind_Ret by reflexivity; exact Hrun').
    by rewrite add_sents_cons.
  - exists e, l.
    by erewrite bind_Raise by (erewrite bind_Ret by reflexivity; exact Hrun).
Qed.

(** X6. When the device does not answer one of the two commands of a mode
    directive, the callback returns [False] and stops the main loop; the
    value is not queued and no tree changes. *)
Theorem failed_mode_write_stops_loop v n s :
  1 ≤ n ≤ 4 →
  py_eq_int v n = true →
  (∃ c, c ∈ mode_commands n ∧ ¬ answers dev "PI18" c) →
  (_change dev "/Mode" v s).1 = Ret false
  ∧ mainloop_running (_change dev "/Mode" v s).2 = false
  ∧ _queued_updates (_change dev "/Mode" v s).2 = _queued_updates s
  ∧ _dbusinverter (_change dev "/Mode" v s).2 = _dbusinverter s
  ∧ _dbusmppt (_change dev "/Mode" v s).2 = _dbusmppt s.
Proof.
  intros Hn Hv (c & Hc & Hno).
  assert (∃ e l, _change_PI18 dev "/Mode" v (add_log WARNING "updated %s to %s" s)
                 = (Raise e, add_sents l (add_log WARNING "updated %s to %s" s)))
    as (e & l & Hrun).
  { rewrite _change_PI18_Mode.
    assert (n = 1 ∨ n = 2 ∨ n = 3 ∨ n = 4) as [-> | [-> | [-> | ->]]] by lia.
    all: clear Hn.
    all: rewrite ?(py_eq_int_ne v _ 1 Hv), ?(py_eq_int_ne v _ 2 Hv),
           ?(py_eq_int_ne v _ 3 Hv), ?Hv by done.
    all: apply list_elem_of_In in Hc; simpl in Hc.
    all: match goal with
         | |- context [setChargerPriority dev (VInt ?cp) _ ;;
                       setOutputSource dev (VInt ?os) _ ;; log _ ?msg] =>
             destruct (directive_fails cp os msg
                         (add_log WARNING "updated %s to %s" s))
               as (e & l & Hrun);
             [ destruct Hc as [<- | [<- | []]]; auto
             | exists e, l;
               erewrite bind_Raise by (erewrite bind_Raise by exact Hrun; done);
               done ]
         end. }
  unfold _change. erewrite bind_Ret by reflexivity.
  erewrite bind_Ret by reflexivity.
  unfold try_except. rewrite Hrun. by destruct s.
Qed.

End Callback.

(** X4 on the two settings paths and on the reset path. *)
Lemma other_paths_are_ignored_witness :
  _change scenario_device "/Settings/Charger" (VInt 2) started
  = (Ret true, add_log WARNING "updated %s to %s" started)
  ∧ (_change scenario_device "/Settings/Reset" (VInt 1) started).1 = Ret true
  ∧ mainloop_running
      (_change scenario_device "/Settings/Reset" (VInt 1) started).2 = false
  ∧ (_change scenario_device "/Settings/Output" (VInt 1) started).1 = Ret true
  ∧ _dbusinverter (_change scenario_device "/Settings/Output" (VInt 1) started).2
    = _dbusinverter started
  ∧ _dbusmppt (_change scenario_device "/Settings/Output" (VInt 1) started).2
    = _dbusmppt started
  ∧ _queued_updates
      (_change scenario_device "/Settings/Output" (VInt 1) started).2
    = _queued_updates started
  ∧ sent (_change scenario_device "/Settings/Output" (VInt 1) started).2
    = sent started
  ∧ mainloop_running
      (_change scenario_device "/Settings/Output" (VInt 1) started).2
    = (if String.eqb "/Settings/Output" "/Settings/Reset" then false
       else mainloop_running started).
Proof.
  do 3 (split; [reflexivity|]).
  apply (other_paths_are_ignored scenario_device "/Settings/Output" (VInt 1)
           started).
  discriminate.
Defined.

(** X6 with a silent device and ['/Mode' = 4]. *)
Lemma failed_mode_write_stops_loop_witness :
  (_change silent_device "/Mode" (VInt 4) started).1 = Ret false
  ∧ mainloop_running (_change silent_device "/Mode" (VInt 4) started).2 = false
  ∧ _queued_updates (_change silent_device "/Mode" (VInt 4) started).2
    = _queued_updates started
  ∧ _dbusinverter (_change silent_device "/Mode" (VInt 4) started).2
    = _dbusinverter started
  ∧ _dbusmppt (_change silent_device "/Mode" (VInt 4) started).2
    = _dbusmppt started.
Proof.
  apply (failed_mode_write_stops_loop silent_device (VInt 4) 4 started).
  - lia.
  - reflexivity.
  - exists "PCP03". split.
    + apply list_elem_of_In. simpl. by left.
    + intros (_ & r & Hr & _). discriminate.
Defined.

(** ** The timer callback, [_update] *)

(** The facts a poll cycle keeps until it merges: the invariant of the
    service, the queue, and ['/Mode'] of both services. *)
Definition awaiting (q : list (string * pyval)) (mi mc : option pyval)
    (s : state) : Prop :=
  wf s
  ∧ _queued_updates s = q
  ∧ _dbusinverter s !! "/Mode" = mi
  ∧ _dbusmppt s !! "/Mode" = mc.

(** The facts after the merge. *)
Definition merged (q : list (string * pyval)) (mi mc : option pyval)
    (s : state) : Prop :=
  wf s
  ∧ _queued_updates s = []
  ∧ _dbusinverter s !! "/Mode"
    = match queued_value q "/Mode" with Some v => Some v | None => mi end
  ∧ _dbusmppt s !! "/Mode"
    = match queued_value q "/Mode" with Some v => Some v | None => mc end.

Lemma awaiting_add_log q mi mc l msg s :
  awaiting q mi mc s → awaiting q mi mc (add_log l msg s).
Proof. done. Qed.

Lemma awaiting_add_sent q mi mc c s :
  awaiting q mi mc s → awaiting q mi mc (add_sent c s).
Proof. done. Qed.

Lemma awaiting_set_tree q mi mc sv p v s :
  p ≠ "/Mode" →
  awaiting q mi mc s →
  awaiting q mi mc (set_tree sv (<[p := v]> (tree sv s)) s).
Proof.
  intros Hp (Hwf & Hq & Hi & Hc).
  split; [by apply wf_set_tree|].
  destruct sv; simpl; split_and!; try done; by rewrite lookup_insert_ne.
Qed.

Ltac frame_awaiting :=
  repeat frame_step;
  try first
    [ apply awaiting_add_log
    | apply awaiting_add_sent
    | apply awaiting_set_tree; discriminate ];
  try done.

Lemma merge_awaiting q mi mc s :
  awaiting q mi mc s →
  ∃ s', _updateInternal s = (Ret tt, s') ∧ merged q mi mc s'.
Proof.
  intros (Hwf & Hq & Hi & Hc).
  rewrite (_updateInternal_run s (wf_queue_registered s Hwf)).
  eexists. split; [done|].
  destruct Hwf as (Hm & Hri & Hrc).
  unfold merged, wf, registered in *. simpl in *.
  rewrite !store_all_lookup, Hq, Hi, Hc.
  split_and!; try done.
  - by intros pv ?%elem_of_nil.
  - rewrite <- Hi. destruct (queued_value q "/Mode"); [by eexists|done].
  - rewrite <- Hc. destruct (queued_value q "/Mode"); [by eexists|done].
Qed.

Lemma hoare_merge_then_true q mi mc :
  hoare (awaiting q mi mc) (_updateInternal ;; ret true)
    (λ o s', o = Ret true ∧ merged q mi mc s').
Proof.
  intros s Hs. destruct (merge_awaiting q mi mc s Hs) as (s' & Hrun & Hm).
  by erewrite bind_Ret by exact Hrun.
Qed.

Section Timer.

Context {response : Type} (dev : transport response).

Lemma _update_PI18_merges q mi mc :
  hoare (awaiting q mi mc) (_update_PI18 dev)
    (λ o s', match o with
             | Ret b => b = true ∧ merged q mi mc s'
             | Raise _ => awaiting q mi mc s'
             end).
Proof.
  unfold _update_PI18.
  apply hoare_try with (R := λ _, awaiting q mi mc).
  - by frame_awaiting.
  - intros raw. destruct raw as [|generated [|data [|mode [|rated [|]]]]];
      try by intros s Hs.
    repeat lazymatch goal with
      | |- hoare _ (_updateInternal ≫= _) _ => fail
      | |- hoare _ (_ ≫= _) _ =>
          apply hoare_skip; [ by frame_awaiting | intros ? | by intros ]
      end.
    eapply hoare_conseq; [apply hoare_merge_then_true | done |].
    by intros o s' [-> ?].
  - intros e s Hs.
    erewrite bind_Ret by reflexivity.
    destruct (hoare_merge_then_true q mi mc
                (add_log WARNING "Error in update PI18 loop." s) Hs)
      as [Ho Hm].
    by rewrite Ho.
Qed.

Lemma _update_merges s :
  wf s →
  (_update dev s).1 = Ret true
  ∧ merged (_queued_updates s) (_dbusinverter s !! "/Mode")
      (_dbusmppt s !! "/Mode") (_update dev s).2.
Proof.
  intros Hwf.
  set (q := _queued_updates s).
  set (mi := _dbusinverter s !! "/Mode").
  set (mc := _dbusmppt s !! "/Mode").
  assert (awaiting q mi mc (add_log INFO "{} updating" s)) as Hs by done.
  unfold _update. erewrite bind_Ret by reflexivity.
  pose proof (_update_PI18_merges q mi mc _ Hs) as H.
  unfold try_except.
  destruct (_update_PI18 dev (add_log INFO "{} updating" s)) as [[b|e] s1];
    simpl in H.
  - by destruct H as (-> & ?).
  - erewrite bind_Ret by reflexivity.
    apply (hoare_merge_then_true q mi mc
             (add_log ERROR "Error in update loop" s1) H).
Qed.

(** X7. From every state the service reaches, and whatever the device does,
    the timer callback returns [True] (the timer keeps firing), leaves the
    queue empty, and leaves ['/Mode'] of both services at the value queued
    last, or as it was when nothing was queued. *)
Theorem poll_always_returns_true s :
  wf s →
  (_update dev s).1 = Ret true
  ∧ wf (_update dev s).2
  ∧ _queued_updates (_update dev s).2 = []
  ∧ _dbusinverter (_update dev s).2 !! "/Mode"
    = match queued_value (_queued_updates s) "/Mode" with
      | Some v => Some v
      | None => _dbusinverter s !! "/Mode"
      end
  ∧ _dbusmppt (_update dev s).2 !! "/Mode"
    = match queued_value (_queued_updates s) "/Mode" with
      | Some v => Some v
      | None => _dbusmppt s !! "/Mode"
      end.
Proof.
  intros Hwf. by destruct (_update_merges s Hwf) as (Ho & Hm).
Qed.

Lemma hoare_ext {A} (P : state → Prop) (c c' : M A) Q :
  (∀ s, c s = c' s) → hoare P c' Q → hoare P c Q.
Proof. intros Hc H s Hs. rewrite Hc. by apply H. Qed.

(** An accepted write to ['/Mode'] has its value at the end of the queue. *)
Lemma accepted_mode_is_last v s :
  (_change dev "/Mode" v s).1 = Ret true →
  _queued_updates (_change dev "/Mode" v s).2
  = _queued_updates s ++ [("/Mode", v)].
Proof.
  set (q0 := _queued_updates s).
  assert (hoare (λ s', _queued_updates s' = q0) (_change_PI18 dev "/Mode" v)
            (λ o s', ∀ b, o = Ret b →
                          _queued_updates s' = q0 ++ [("/Mode", v)])) as H.
  { eapply hoare_ext; [intros s0; apply _change_PI18_Mode|].
    apply hoare_bind
      with (R := λ o s', ∀ u : (), o = Ret u →
                                   _queued_updates s' = q0 ++ [("/Mode", v)]).
    - apply hoare_skip.
      + unfold setChargerPriority, setOutputSource. repeat frame_step;
          by match goal with x : state |- _ => destruct x end.
      + intros _ s0 Hs0 u _. simpl. by rewrite Hs0.
      + by intros.
    - intros a s0 Hs0 b _. by apply (Hs0 a).
    - by intros. }
  unfold _change. erewrite bind_Ret by reflexivity.
  erewrite bind_Ret by reflexivity.
  unfold try_except.
  specialize (H (add_log WARNING "updated %s to %s" s) eq_refl).
  destruct (_change_PI18 dev "/Mode" v _) as [[b|e] s1]; simpl in *.
  - intros _. by apply (H b).
  - discriminate.
Qed.

End Timer.

Lemma queued_value_last q k v : queued_value (q ++ [(k, v)]) k = Some v.
Proof.
  induction q as [|pv q IH]; simpl.
  - by destruct (decide (k = k)).
  - by rewrite IH.
Qed.

(** X8. A write to ['/Mode'] that the callback accepts is published by the
    next poll cycle, whether that cycle succeeds or fails: afterwards both
    services hold the written value as ['/Mode'] and the queue is empty. *)
Theorem accepted_mode_is_published {response response'}
    (dev : transport response) (dev' : transport response') v s :
  wf s →
  (_change dev "/Mode" v s).1 = Ret true →
  (_update dev' (_change dev "/Mode" v s).2).1 = Ret true
  ∧ _dbusinverter (_update dev' (_change dev "/Mode" v s).2).2 !! "/Mode"
    = Some v
  ∧ _dbusmppt (_update dev' (_change dev "/Mode" v s).2).2 !! "/Mode"
    = Some v
  ∧ _queued_updates (_update dev' (_change dev "/Mode" v s).2).2 = [].
Proof.
  intros Hwf Hok.
  pose proof (wf__change dev "/Mode" v s Hwf) as Hwf1.
  pose proof (accepted_mode_is_last dev v s Hok) as Hq.
  destruct (_update_merges dev' _ Hwf1) as (Ho & _ & Hq' & Hi & Hc).
  rewrite Hq, queued_value_last in Hi, Hc. done.
Qed.

(** X7 after a write, on a device that does not answer. *)
Lemma poll_always_returns_true_witness :
  (_update silent_device pending_off).1 = Ret true
  ∧ wf (_update silent_device pending_off).2
  ∧ _queued_updates (_update silent_device pending_off).2 = []
  ∧ _dbusinverter (_update silent_device pending_off).2 !! "/Mode"
    = match queued_value (_queued_updates pending_off) "/Mode" with
      | Some v => Some v
      | None => _dbusinverter pending_off !! "/Mode"
      end
  ∧ _dbusmppt (_update silent_device pending_off).2 !! "/Mode"
    = match queued_value (_queued_updates pending_off) "/Mode" with
      | Some v => Some v
      | None => _dbusmppt pending_off !! "/Mode"
      end.
Proof.
  apply (poll_always_returns_true silent_device pending_off).
  split_and!; [|by eexists..].
  intros pv Hpv. apply list_elem_of_In in Hpv. simpl in Hpv.
  by destruct Hpv as [<- | []].
Defined.

(** X8 for ['/Mode' = 3], followed by a cycle on a silent device. *)
Lemma accepted_mode_is_published_witness :
  (_update silent_device (_change scenario_device "/Mode" (VInt 3) started).2).1
  = Ret true
  ∧ _dbusinverter
      (_update silent_device
         (_change scenario_device "/Mode" (VInt 3) started).2).2 !! "/Mode"
    = Some (VInt 3)
  ∧ _dbusmppt
      (_update silent_device
         (_change scenario_device "/Mode" (VInt 3) started).2).2 !! "/Mode"
    = Some (VInt 3)
  ∧ _queued_updates
      (_update silent_device
         (_change scenario_device "/Mode" (VInt 3) started).2).2 = [].
Proof.
  apply (accepted_mode_is_published scenario_device silent_device (VInt 3)
           started).
  - split_and!; [|by eexists..]. by intros pv ?%elem_of_nil.
  - reflexivity.
Defined.

(** ** The registered paths *)

Lemma stable_setitem_reg (I : state → Prop) sv path v :
  (∀ s, I s → is_Some (tree sv s !! path) →
        I (set_tree sv (<[path := v]> (tree sv s)) s)) →
  stable I (setitem sv path v).
Proof.
  intros H s Hs. unfold setitem.
  destruct (tree sv s !! path) eqn:E; simpl; [|done].
  apply H; [done|]. by rewrite E.
Qed.

(** Both services have exactly the paths [D1] and [D2]. *)
Definition has_paths (D1 D2 : gset string) (s : state) : Prop :=
  dom (_dbusinverter s) = D1 ∧ dom (_dbusmppt s) = D2.

Lemma has_paths_set_tree D1 D2 sv p v s :
  has_paths D1 D2 s →
  is_Some (tree sv s !! p) →
  has_paths D1 D2 (set_tree sv (<[p := v]> (tree sv s)) s).
Proof.
  intros [H1 H2] Hp%elem_of_dom. unfold has_paths.
  destruct sv; simpl in *;
    rewrite dom_insert_L, subseteq_union_1_L
      by (by apply singleton_subseteq_l);
    done.
Qed.

Ltac frame_paths :=
  repeat first
    [ apply stable_setitem_reg; intros ? ? ?
    | frame_step ];
  try first
    [ by apply has_paths_set_tree
    | by match goal with x : state |- _ => destruct x end ].

(** X9. After construction no path is ever added or removed: the timer
    callback and the write callback leave the set of paths of each service
    as it is, whatever the device, the path and the value. *)
Theorem paths_never_change {response} (dev : transport response)
    path value s :
  dom (_dbusinverter (_update dev s).2) = dom (_dbusinverter s)
  ∧ dom (_dbusmppt (_update dev s).2) = dom (_dbusmppt s)
  ∧ dom (_dbusinverter (_change dev path value s).2) = dom (_dbusinverter s)
  ∧ dom (_dbusmppt (_change dev path value s).2) = dom (_dbusmppt s).
Proof.
  set (I := has_paths (dom (_dbusinverter s)) (dom (_dbusmppt s))).
  assert (stable I (_update dev)) as Hu.
  { unfold _update, _update_PI18, _updateInternal. frame_paths. }
  assert (stable I (_change dev path value)) as Hc.
  { unfold _change, _change_PI18, setChargerPriority, setOutputSource.
    frame_paths. }
  destruct (Hu s) as [? ?]; [done|]. destruct (Hc s) as [? ?]; [done|].
  done.
Qed.

(** ** Construction, [__init__] *)

Section Construction.

Context (file python_version : string) (h : host).
Context (tty : string) (deviceinstance : Z) (productname connection : string).

(** The trees a service named [name] starts with. *)
Definition first_inverter_tree (name : json) : gmap string pyval :=
  add_paths inverter_paths
    (add_paths
       (setupInverterDefaultPaths file python_version connection
          deviceinstance ("Inverter " +:+ format_value h name)) ∅).

Definition first_charger_tree (name : json) : gmap string pyval :=
  add_paths charger_paths
    (add_paths
       (setupChargerDefaultPaths file python_version connection
          deviceinstance ("Charger " +:+ format_value h name)) ∅).

(** What the config file makes of the product name. *)
Definition resolved_productname : outcome json :=
  match config_file h with
  | None => Ret (JStr productname)
  | Some loaded =>
      obind loaded (λ config,
      obind (py_contains config tty) (λ known,
      if known : bool then
        obind (py_getitem_str config tty) (λ entry,
        obind (py_get entry "productname") (λ v,
        Ret (match v with JNull => JStr productname | _ => v end)))
      else Ret (JStr productname)))
  end.

Lemma lift_Ret_bind {A B} (a : A) (k : A → M B) : lift (Ret a) ≫= k = k a.
Proof. reflexivity. Qed.

Lemma ret_bind {A B} (a : A) (k : A → M B) : ret a ≫= k = k a.
Proof. reflexivity. Qed.

(** After the config block: the identity query, then the paths. *)
Ltac build_services dev :=
  lazymatch goal with
  | |- context [(log WARNING "Protocol set to PI18." ≫= _) ?s0] =>
      let k := fresh "k" in let Hs := fresh "Hs" in let E := fresh "E" in
      erewrite bind_Ret by reflexivity;
      destruct (runInverterCommands_prefix dev ["ID"; "VFW"] "PI18"
                  (add_log WARNING "Protocol set to PI18." s0))
        as (k & _ & Hs & _);
      destruct (runInverterCommands dev ["ID"; "VFW"] "PI18"
                  (add_log WARNING "Protocol set to PI18." s0))
        as [[?|?] ?] eqn:E; cbn [snd] in Hs; subst;
      (erewrite bind_Ret by (unfold try_except; rewrite E; reflexivity));
      exists k; eexists; reflexivity
  end.

Lemma __init__run {response} (dev : transport response) s :
  match resolved_productname with
  | Ret name =>
      ∃ k lg,
        __init__ dev file python_version h tty deviceinstance productname
          connection s
        = (Ret tt,
           State (first_inverter_tree name) (first_charger_tree name) []
             (sent s ++ take k ["ID"; "VFW"]) lg (mainloop_running s))
  | Raise e =>
      __init__ dev file python_version h tty deviceinstance productname
        connection s
      = (Raise e, set_queue [] s)
  end.
Proof.
  unfold __init__, resolved_productname.
  erewrite bind_Ret by reflexivity.
  destruct s as [ti tc qu se lg0 ml]. unfold set_queue.
  cbn [_dbusinverter _dbusmppt _queued_updates sent logged mainloop_running].
  destruct (config_file h) as [[config|e]|]; cbn [obind].
  - rewrite lift_Ret_bind. cbv beta.
    destruct (py_contains config tty) as [[|]|e]; cbn [obind].
    + rewrite lift_Ret_bind. cbv beta iota.
      destruct (py_getitem_str config tty) as [entry|e]; cbn [obind].
      * rewrite lift_Ret_bind. cbv beta.
        destruct (py_get entry "productname") as [v|e]; cbn [obind].
        -- rewrite lift_Ret_bind. cbv beta.
           destruct v; cbv iota;
             first [ rewrite ret_bind; cbv beta
                   | erewrite bind_Ret by reflexivity ];
             build_services dev.
        -- reflexivity.
      * reflexivity.
    + rewrite lift_Ret_bind. cbv beta iota. rewrite ret_bind. cbv beta.
      build_services dev.
    + reflexivity.
  - reflexivity.
  - rewrite ret_bind. cbv beta. build_services dev.
Qed.

Lemma add_paths_hit l t k v :
  queued_value l k = Some v → add_paths l t !! k = Some v.
Proof.
  intros H. change (store_all l t !! k = Some v).
  by rewrite store_all_lookup, H.
Qed.

Lemma first_trees_have_Mode name :
  first_inverter_tree name !! "/Mode" = Some (VInt 0)
  ∧ first_charger_tree name !! "/Mode" = Some (VInt 0).
Proof.
  unfold first_inverter_tree, first_charger_tree.
  split; apply add_paths_hit; reflexivity.
Qed.

(** X10. Whether construction succeeds is decided by the config-file block
    alone, never by the device or the prior state (the bus library's calls
    being taken to succeed). When the block raises, nothing has been sent
    and no tree exists yet. Otherwise the identity query is sent (a prefix
    of ID, VFW), its failure is swallowed, and the service starts with the
    same two trees for every device, an empty queue and ['/Mode'] present in
    both services. Without a config file construction succeeds. *)
Theorem construction_ignores_device {response response'}
    (dev : transport response) (dev' : transport response') s s' :
  let built := __init__ dev file python_version h tty deviceinstance
                 productname connection s in
  let built' := __init__ dev' file python_version h tty deviceinstance
                  productname connection s' in
  built.1 = built'.1
  ∧ (∀ e, built.1 = Raise e → built.2 = set_queue [] s)
  ∧ (built.1 = Ret tt →
     _dbusinverter built.2 = _dbusinverter built'.2
     ∧ _dbusmppt built.2 = _dbusmppt built'.2
     ∧ _queued_updates built.2 = []
     ∧ wf built.2
     ∧ ∃ k, sent built.2 = sent s ++ take k ["ID"; "VFW"])
  ∧ (config_file h = None → built.1 = Ret tt).
Proof.
  intros built built'. subst built built'.
  pose proof (__init__run dev s) as H.
  pose proof (__init__run dev' s') as H'.
  assert (config_file h = None → ∃ name, resolved_productname = Ret name)
    as Hnone.
  { unfold resolved_productname. intros ->. by eexists. }
  destruct resolved_productname as [name|e].
  - destruct H as (k & lg & ->), H' as (k' & lg' & ->).
    destruct (first_trees_have_Mode name) as [Hi Hc].
    cbn [fst snd _dbusinverter _dbusmppt _queued_updates sent].
    split; [reflexivity|]. split; [by intros e [=]|].
    split; [|done]. intros _.
    do 3 (split; [reflexivity|]).
    split; [|by exists k].
    split; [by intros pv ?%elem_of_nil|].
    unfold registered. cbn [tree _dbusinverter _dbusmppt].
    rewrite Hi, Hc. split; by eexists.
  - rewrite H, H'. cbn [fst snd].
    split; [reflexivity|]. split; [done|]. split; [by intros [=]|].
    intros Hn. by destruct (Hnone Hn).
Qed.

End Construction.

(** Two config files that make construction fail, whatever the device: one
    that names the tty with a str instead of a dict, one that cannot be
    read. *)
Example construction_can_fail :
  (__init__ scenario_device "dbus-mppsolar.py" "3"
     (Host (Some (Ret (JDict [("ttyUSB0", JStr "Inverter 1")])))
        (λ _, EmptyString))
     "ttyUSB0" 0 "MPPSolar" "MPPSolar interface" blank).1
  = Raise AttributeError
  ∧ (__init__ scenario_device "dbus-mppsolar.py" "3"
       (Host (Some (Raise OSError)) (λ _, EmptyString))
       "ttyUSB0" 0 "MPPSolar" "MPPSolar interface" blank).1
    = Raise OSError
  ∧ _dbusinverter
      (__init__ scenario_device "dbus-mppsolar.py" "3"
         (Host (Some (Ret (JDict [("ttyUSB0",
                                   JDict [("productname", JStr "Shed")])])))
            (λ _, EmptyString))
         "ttyUSB0" 0 "MPPSolar" "MPPSolar interface" blank).2
    !! "/ProductName" = Some (VStr "Inverter Shed").
Proof. vm_compute. repeat split. Qed.

(** ** The fields a poll cycle copies *)

(** The assignments of [_update_PI18] of the form
    [sv[path] = data.get(key, sv[path])]: service, path and key. *)
Definition copied_fields : list (service * string * string) :=
  [ (Inverter, "/Dc/0/Voltage", "battery_voltage");
    (Charger, "/Dc/0/Voltage", "battery_voltage");
    (Inverter, "/Ac/Out/L1/V", "ac_output_voltage");
    (Inverter, "/Ac/Out/L1/P", "ac_output_active_power");
    (Charger, "/Pv/V", "pv1_input_voltage");
    (Charger, "/Yield/Power", "pv1_input_power");
    (Inverter, "/Temperature", "inverter_heat_sink_temperature");
    (Charger, "/DC/0/Temperature", "mppt1_charger_temperature") ].

(** Walk down a sequence, keeping the invariant, up to the read of [k]. *)
Ltac skip_to_get sv k :=
  repeat lazymatch goal with
    | |- hoare _ (getitem sv k ≫= _) _ => fail
    | |- hoare _ (_ ≫= _) _ =>
        apply hoare_skip;
        [ repeat frame_step; frame_kept
        | intros ?
        | by intros ? ? _ [=] ]
    end.

Ltac copied_path sv k prior :=
  skip_to_get sv k;
  apply hoare_bind
    with (R := λ o s', o = Ret prior ∧ kept sv k (Some prior) s');
    [ apply hoare_getitem_kept | | by intros ? ? [? _] ];
  intros ?; apply hoare_pure; intros [= ->];
  eapply hoare_bind;
    [ apply hoare_setitem_kept | | by intros ? ? _ [=] ];
  intros ?; cbv beta;
  apply hoare_stable;
    [ repeat frame_step; try apply stable__updateInternal; frame_kept
    | by intros ? ? ? _ ].

Section CycleCopies.

Context {response : Type} (dev : transport response).
Context (generated data mode rated : gmap string pyval).
Hypothesis batch_returns :
  ∀ s, (runInverterCommands dev batch "PI18" s).1
       = Ret [generated; data; mode; rated].

Lemma copied_field_kept sv path key prior :
  (sv, path, key) ∈ copied_fields →
  hoare (kept sv path (Some prior))
    (_update_PI18 dev)
    (λ o s', o = Ret true →
             kept sv path (Some (dict_get data key prior)) s').
Proof.
  intros Hin. unfold _update_PI18. fold batch.
  apply hoare_try
    with (R := λ o s', o = Ret [generated; data; mode; rated]
                       ∧ kept sv path (Some prior) s').
  - apply hoare_outcome; [|exact batch_returns].
    apply stable_runInverterCommands. intros c s. apply kept_add_sent.
  - intros raw. apply hoare_pure. intros [= ->].
    apply list_elem_of_In in Hin. simpl in Hin.
    destruct Hin as [[= <- <- <-] | [[= <- <- <-] | [[= <- <- <-]
      | [[= <- <- <-] | [[= <- <- <-] | [[= <- <- <-] | [[= <- <- <-]
      | [[= <- <- <-] | []]]]]]]]].
    + copied_path Inverter "/Dc/0/Voltage" prior.
    + copied_path Charger "/Dc/0/Voltage" prior.
    + copied_path Inverter "/Ac/Out/L1/V" prior.
    + copied_path Inverter "/Ac/Out/L1/P" prior.
    + copied_path Charger "/Pv/V" prior.
    + copied_path Charger "/Yield/Power" prior.
    + copied_path Inverter "/Temperature" prior.
    + copied_path Charger "/DC/0/Temperature" prior.
  - intros e. apply hoare_pure. discriminate.
Qed.

End CycleCopies.

(** X11. On a cycle that runs to its end, each of the eight copied fields
    ends as [data.get(key, prior)]: the decoded value when the key is
    present and, unlike the two yield totals, exactly the prior value of the
    path when it is absent. *)
Theorem copied_fields_fall_back {response} (dev : transport response)
    s generated data mode rated :
  (runInverterCommands dev batch "PI18" s).1
  = Ret [generated; data; mode; rated] →
  wf s →
  (_update_PI18 dev s).1 = Ret true →
  ∀ sv path key prior,
    (sv, path, key) ∈ copied_fields →
    tree sv s !! path = Some prior →
    tree sv (_update_PI18 dev s).2 !! path
    = Some (dict_get data key prior).
Proof.
  intros Hbatch Hwf Hret sv path key prior Hin Hprior.
  assert (∀ s', (runInverterCommands dev batch "PI18" s').1
                = Ret [generated; data; mode; rated]) as Hb.
  { intros s'. rewrite <- Hbatch. apply runInverterCommands_outcome. }
  assert (path ≠ "/Mode") as Hp.
  { apply list_elem_of_In in Hin. simpl in Hin.
    repeat destruct Hin as [[= <- <- <-] | Hin]; try discriminate.
    destruct Hin. }
  destruct (copied_field_kept dev generated data mode rated Hb
              sv path key prior Hin s) as [Hk _]; [|done..].
  split; [done|]. by apply wf_not_queued.
Qed.

(** The status record of the scenario. *)
Definition scenario_status : gmap string pyval :=
  list_to_map
    [ ("battery_voltage", VFloat 52.1);
      ("ac_output_voltage", VFloat 230.0);
      ("ac_output_active_power", VInt 500);
      ("pv1_input_power", VInt 120);
      ("pv1_input_voltage", VInt 60) ].

(** X11 on the scenario: no temperature is decoded, so ['/Temperature']
    keeps 123; the battery voltage is decoded, so it replaces the 0. *)
Lemma copied_fields_fall_back_witness :
  tree Inverter (_update_PI18 scenario_device started).2 !! "/Temperature"
  = Some (dict_get scenario_status "inverter_heat_sink_temperature" (VInt 123))
  ∧ tree Charger (_update_PI18 scenario_device started).2 !! "/Dc/0/Voltage"
    = Some (dict_get scenario_status "battery_voltage" (VInt 0))
  ∧ dict_get scenario_status "inverter_heat_sink_temperature" (VInt 123)
    = VInt 123
  ∧ dict_get scenario_status "battery_voltage" (VInt 0) = VFloat 52.1.
Proof.
  split; [|split; [|split; reflexivity]].
  - eapply (copied_fields_fall_back scenario_device started _ scenario_status);
      try reflexivity.
    + split_and!; [by intros pv ?%elem_of_nil | by eexists..].
    + apply list_elem_of_In. simpl. tauto.
  - eapply (copied_fields_fall_back scenario_device started _ scenario_status);
      try reflexivity.
    + split_and!; [by intros pv ?%elem_of_nil | by eexists..].
    + apply list_elem_of_In. simpl. tauto.
Defined.

(** ** The charger state *)

Lemma pv_flags_agree (data : gmap string pyval) g g' :
  py_gt_int (dict_get data "pv1_input_power" (VInt 0)) 0 = Ret g →
  (if py_ne_None (dict_get data "pv1_input_power" VNone)
   then py_gt_int (dict_get data "pv1_input_power" VNone) 0
   else Ret false) = Ret g' →
  g' = g.
Proof.
  unfold dict_get. destruct (data !! "pv1_input_power") as [x|]; simpl.
  - destruct x; cbn [py_ne_None]; [by intros [=] | congruence..].
  - intros [= <-] [= <-]. done.
Qed.

Lemma hoare_ret_bind {A B} (P : state → Prop) (a : A) (k : A → M B) Q :
  hoare P (k a) Q → hoare P (ret a ≫= k) Q.
Proof. intros H s Hs. by apply H. Qed.

Section CycleCharger.

Context {response : Type} (dev : transport response).
Context (generated data mode rated : gmap string pyval).
Hypothesis batch_returns :
  ∀ s, (runInverterCommands dev batch "PI18" s).1
       = Ret [generated; data; mode; rated].

Lemma charger_state_set old :
  hoare (kept Charger "/State" (Some old))
    (_update_PI18 dev)
    (λ o s',
       o = Ret true →
       ∃ g, py_gt_int (dict_get data "pv1_input_power" (VInt 0)) 0 = Ret g
            ∧ kept Charger "/State" (Some (VInt (if g then 3 else 0))) s').
Proof.
  unfold _update_PI18. fold batch.
  apply hoare_try
    with (R := λ o s', o = Ret [generated; data; mode; rated]
                       ∧ kept Charger "/State" (Some old) s').
  - apply hoare_outcome; [by frame_kept | exact batch_returns].
  - intros raw. apply hoare_pure. intros [= ->].
    repeat lazymatch goal with
      | |- hoare _ (lift (py_gt_int _ _) ≫= _) _ => fail
      | |- hoare _ (_ ≫= _) _ =>
          apply hoare_skip;
          [ repeat frame_step; frame_kept | intros ? | by intros ? ? _ [=] ]
      end.
    apply hoare_lift_bind; [| by intros ? ? _ _ [=] ].
    intros g Hg.
    apply hoare_bind
      with (R := λ _, kept Charger "/State" (Some (VInt (if g then 3 else 0)))).
    + destruct g; apply hoare_setitem_kept.
    + intros ?. apply hoare_stable;
        [ repeat frame_step; try apply stable__updateInternal; frame_kept
        | intros ? ? ? _; by exists g ].
    + by intros ? ? _ [=].
  - intros e. apply hoare_pure. discriminate.
Qed.

Lemma charger_operation_mode_set old :
  hoare (kept Charger "/MppOperationMode" (Some old))
    (_update_PI18 dev)
    (λ o s',
       o = Ret true →
       ∃ g, (if py_ne_None (dict_get data "pv1_input_power" VNone)
             then py_gt_int (dict_get data "pv1_input_power" VNone) 0
             else Ret false) = Ret g
            ∧ kept Charger "/MppOperationMode"
                (Some (VInt (if g then 2 else 0))) s').
Proof.
  unfold _update_PI18. fold batch.
  apply hoare_try
    with (R := λ o s', o = Ret [generated; data; mode; rated]
                       ∧ kept Charger "/MppOperationMode" (Some old) s').
  - apply hoare_outcome; [by frame_kept | exact batch_returns].
  - intros raw. apply hoare_pure. intros [= ->].
    repeat lazymatch goal with
      | |- hoare _ ((if py_ne_None _ then _ else _) ≫= _) _ => fail
      | |- hoare _ (_ ≫= _) _ =>
          apply hoare_skip;
          [ repeat frame_step; frame_kept | intros ? | by intros ? ? _ [=] ]
      end.
    assert (∀ g,
              (if py_ne_None (dict_get data "pv1_input_power" VNone)
               then py_gt_int (dict_get data "pv1_input_power" VNone) 0
               else Ret false) = Ret g →
              hoare (kept Charger "/MppOperationMode" (Some old))
                (setitem Charger "/MppOperationMode"
                   (VInt (if g then 2 else 0)) ;;
                 d ← getitem Inverter "/Temperature";
                 setitem Inverter "/Temperature"
                   (dict_get data "inverter_heat_sink_temperature" d) ;;
                 d ← getitem Charger "/DC/0/Temperature";
                 setitem Charger "/DC/0/Temperature"
                   (dict_get data "mppt1_charger_temperature" d) ;;
                 _updateInternal ;;
                 ret true)
                (λ o s',
                   o = Ret true →
                   ∃ g, (if py_ne_None (dict_get data "pv1_input_power" VNone)
                         then py_gt_int
                                (dict_get data "pv1_input_power" VNone) 0
                         else Ret false) = Ret g
                        ∧ kept Charger "/MppOperationMode"
                            (Some (VInt (if g then 2 else 0))) s')) as Hrest.
    { intros g Hg.
      apply hoare_bind
        with (R := λ _, kept Charger "/MppOperationMode"
                          (Some (VInt (if g then 2 else 0)))).
      - apply hoare_setitem_kept.
      - intros ?. apply hoare_stable;
          [ repeat frame_step; try apply stable__updateInternal; frame_kept
          | intros ? ? ? _; by exists g ].
      - by intros ? ? _ [=]. }
    destruct (py_ne_None (dict_get data "pv1_input_power" VNone)).
    + apply hoare_lift_bind; [| by intros ? ? _ _ [=] ].
      intros g Hg. by apply Hrest.
    + apply hoare_ret_bind. by apply (Hrest false).
  - intros e. apply hoare_pure. discriminate.
Qed.

End CycleCharger.

(** X12. On a cycle that runs to its end the two charger indicators agree:
    ['/State'] is 3 (charging) and ['/MppOperationMode'] is 2 exactly when
    the decoded [pv1_input_power] is greater than 0; otherwise, also when
    the field is absent, they are 0 and 0. *)
Theorem charger_state_and_operation_mode_agree {response}
    (dev : transport response) s generated data mode rated st op :
  (runInverterCommands dev batch "PI18" s).1
  = Ret [generated; data; mode; rated] →
  wf s →
  _dbusmppt s !! "/State" = Some st →
  _dbusmppt s !! "/MppOperationMode" = Some op →
  (_update_PI18 dev s).1 = Ret true →
  ∃ g, py_gt_int (dict_get data "pv1_input_power" (VInt 0)) 0 = Ret g
       ∧ _dbusmppt (_update_PI18 dev s).2 !! "/State"
         = Some (VInt (if g then 3 else 0))
       ∧ _dbusmppt (_update_PI18 dev s).2 !! "/MppOperationMode"
         = Some (VInt (if g then 2 else 0)).
Proof.
  intros Hbatch Hwf Hst Hop Hret.
  assert (∀ s', (runInverterCommands dev batch "PI18" s').1
                = Ret [generated; data; mode; rated]) as Hb.
  { intros s'. rewrite <- Hbatch. apply runInverterCommands_outcome. }
  destruct (charger_state_set dev generated data mode rated Hb st s)
    as (g & Hg & Hks & _); [|done|].
  { split; [done|]. by apply wf_not_queued. }
  destruct (charger_operation_mode_set dev generated data mode rated Hb op s)
    as (g' & Hg' & Hko & _); [|done|].
  { split; [done|]. by apply wf_not_queued. }
  rewrite (pv_flags_agree data g g' Hg Hg') in Hko.
  by exists g.
Qed.

(** X12 on the scenario: 120 W of PV power, so 3 and 2. *)
Lemma charger_state_and_operation_mode_agree_witness :
  ∃ g, py_gt_int (dict_get scenario_status "pv1_input_power" (VInt 0)) 0
       = Ret g
       ∧ _dbusmppt (_update_PI18 scenario_device started).2 !! "/State"
         = Some (VInt (if g then 3 else 0))
       ∧ _dbusmppt (_update_PI18 scenario_device started).2
         !! "/MppOperationMode"
         = Some (VInt (if g then 2 else 0)).
Proof.
  eapply (charger_state_and_operation_mode_agree scenario_device started);
    try reflexivity.
  split_and!; [by intros pv ?%elem_of_nil | by eexists..].
Defined.

(** ** A cycle cut short at the output-current guard *)

(** The paths [_update_PI18] writes after the guard on the output current. *)
Definition after_guard_paths : list (service * string) :=
  [ (Inverter, "/Ac/Out/L1/I");
    (Charger, "/State");
    (Charger, "/Pv/V");
    (Charger, "/Yield/Power");
    (Charger, "/Yield/User");
    (Charger, "/Yield/System");
    (Charger, "/MppOperationMode");
    (Inverter, "/Temperature");
    (Charger, "/DC/0/Temperature") ].

Lemma hoare_setitem_value (I : state → Prop) sv k v :
  stable I (setitem sv k v) →
  hoare I (setitem sv k v)
    (λ o s', I s' ∧ (o = Ret tt → tree sv s' !! k = Some v)).
Proof.
  intros HI s Hs. split; [by apply HI|].
  unfold setitem. destruct (tree sv s !! k); simpl; [|done].
  intros _. destruct sv; apply lookup_insert_eq.
Qed.

Lemma hoare_getitem_value {B} (I : state → Prop) sv k v
    (c : pyval → M B) Q :
  hoare (λ s, I s ∧ tree sv s !! k = Some v) (c v) Q →
  hoare (λ s, I s ∧ tree sv s !! k = Some v) (getitem sv k ≫= c) Q.
Proof.
  intros H s [HI Hk]. unfold mbind, M_bind, bind, getitem.
  rewrite Hk. by apply H.
Qed.

Section CycleCutShort.

Context {response : Type} (dev : transport response).
Context (generated data mode rated : gmap string pyval).
Context (p : pyval) (e : exn).
Hypothesis batch_returns :
  ∀ s, (runInverterCommands dev batch "PI18" s).1
       = Ret [generated; data; mode; rated].
Hypothesis power : data !! "ac_output_active_power" = Some p.
Hypothesis not_an_int : py_and_int 0 p = Raise e.

Lemma cycle_raises_at_guard sv path x :
  (sv, path) ∈ after_guard_paths →
  hoare (kept sv path x) (_update_PI18 dev)
    (λ o s', kept sv path x s' ∧ ∃ e', o = Raise e').
Proof.
  intros Hin. unfold _update_PI18. fold batch.
  apply hoare_try
    with (R := λ o s', o = Ret [generated; data; mode; rated]
                       ∧ kept sv path x s').
  - apply hoare_outcome; [by frame_kept | exact batch_returns].
  - intros raw. apply hoare_pure. intros [= ->].
    apply list_elem_of_In in Hin. simpl in Hin.
    repeat destruct Hin as [[= <- <-] | Hin]; try destruct Hin;
      ( repeat lazymatch goal with
          | |- hoare _ (getitem Inverter "/Ac/Out/L1/P" ≫= _) _ => fail
          | |- hoare _ (_ ≫= _) _ =>
              apply hoare_skip;
              [ repeat frame_step; frame_kept
              | intros ?
              | intros ? ? ?; split; [done | by eexists] ]
          end;
        apply hoare_skip;
          [ apply stable_getitem
          | intros d
          | intros ? ? ?; split; [done | by eexists] ];
        change (dict_get data "ac_output_active_power" d)
          with (default d (data !! "ac_output_active_power"));
        rewrite power; simpl default;
        eapply hoare_bind;
          [ apply hoare_setitem_value; repeat frame_step; frame_kept
          | intros []
          | intros ? ? [? _]; split; [done | by eexists] ];
        eapply hoare_conseq
          with (P' := λ s, _ s ∧ tree Inverter s !! "/Ac/Out/L1/P" = Some p);
          [ | intros ? [? Hp]; split; [eassumption | by apply Hp]
            | intros ? ? H; exact H ];
        apply hoare_skip;
          [ apply stable_getitem
          | intros v
          | intros ? ? [? _]; split; [done | by eexists] ];
        apply hoare_getitem_value;
        apply hoare_lift_bind;
          [ intros b Hb; rewrite not_an_int in Hb; discriminate
          | intros ? ? _ [? _]; split; [done | by eexists] ] ).
  - intros e0. apply hoare_pure. discriminate.
Qed.

End CycleCutShort.

(** X13. When the decoded [ac_output_active_power] is not an int (a float,
    say), [0 & P] in the guard on the output current raises: the cycle is
    cut short there, [_update] still returns [True], and none of the paths
    written after the guard (the whole solar-charger group and the two
    temperatures among them) is refreshed. *)
Theorem non_int_power_cuts_cycle_short {response} (dev : transport response)
    s generated data mode rated p e :
  (runInverterCommands dev batch "PI18" s).1
  = Ret [generated; data; mode; rated] →
  data !! "ac_output_active_power" = Some p →
  py_and_int 0 p = Raise e →
  wf s →
  (∃ e', (_update_PI18 dev s).1 = Raise e')
  ∧ (_update dev s).1 = Ret true
  ∧ ∀ sv path,
      (sv, path) ∈ after_guard_paths →
      tree sv (_update dev s).2 !! path = tree sv s !! path.
Proof.
  intros Hbatch Hp He Hwf.
  assert (∀ s', (runInverterCommands dev batch "PI18" s').1
                = Ret [generated; data; mode; rated]) as Hb.
  { intros s'. rewrite <- Hbatch. apply runInverterCommands_outcome. }
  assert (∀ sv path, (sv, path) ∈ after_guard_paths → path ≠ "/Mode") as Hne.
  { intros sv path Hin. apply list_elem_of_In in Hin. simpl in Hin.
    repeat destruct Hin as [[= <- <-] | Hin]; try discriminate.
    destruct Hin. }
  split; [|split].
  - assert (kept Inverter "/Temperature"
              (_dbusinverter s !! "/Temperature") s) as Hk.
    { split; [done|]. by apply wf_not_queued. }
    apply (cycle_raises_at_guard dev generated data mode rated p e Hb Hp He
             Inverter "/Temperature" _) in Hk as [_ Hr].
    + exact Hr.
    + apply list_elem_of_In. simpl. tauto.
  - by destruct (_update_merges dev s Hwf).
  - intros sv path Hin.
    set (x := tree sv s !! path).
    assert (hoare (kept sv path x)
              (try_except (_update_PI18 dev)
                 (log ERROR "Error in update loop" ;;
                  _updateInternal ;; ret true)
                 ret)
              (λ _, kept sv path x)) as H.
    { apply hoare_try
        with (R := λ o s', kept sv path x s' ∧ ∃ e', o = Raise e').
      - by apply (cycle_raises_at_guard dev generated data mode rated p e).
      - by intros a s0 [_ [e' [=]]].
      - intros e'.
        apply hoare_conseq
          with (P' := kept sv path x) (Q' := λ _, kept sv path x);
          [ | by intros s0 [? _] | done ].
        repeat frame_step; try apply stable__updateInternal; frame_kept. }
    unfold _update. erewrite bind_Ret by reflexivity.
    apply (H (add_log INFO "{} updating" s)).
    split; [by destruct sv|]. apply wf_not_queued; [done|].
    by apply (Hne sv).
Qed.

(** X13 on the fault device, whose active power is the float 500.0. *)
Lemma non_int_power_cuts_cycle_short_witness :
  (∃ e', (_update_PI18 fault_device started).1 = Raise e')
  ∧ (_update fault_device started).1 = Ret true
  ∧ ∀ sv path,
      (sv, path) ∈ after_guard_paths →
      tree sv (_update fault_device started).2 !! path
      = tree sv started !! path.
Proof.
  eapply (non_int_power_cuts_cycle_short fault_device started)
    with (p := VFloat 500.0) (e := TypeError); try reflexivity.
  split_and!; [by intros pv ?%elem_of_nil | by eexists..].
Defined.

(** * The helpers outside the service class *)

(** ** [isNaN] *)

(** [a == b] on the values of the model: numbers compare by value across
    [bool], [int] and [float], strings by content, [None] equals itself. *)
Definition py_eq (a b : pyval) : bool :=
  match a, b with
  | VNone, VNone => true
  | VStr s, VStr t => String.eqb s t
  | _, _ =>
      match as_num a, as_num b with
      | Some (NInt x), Some (NInt y) => x =? y
      | Some (NInt x), Some (NFloat g) =>
          match float_compare_Z g x with Some Eq => true | _ => false end
      | Some (NFloat f), Some (NInt y) =>
          match float_compare_Z f y with Some Eq => true | _ => false end
      | Some (NFloat f), Some (NFloat g) => PrimFloat.eqb f g
      | _, _ => false
      end
  end.

(** [a != b] *)
Definition py_ne (a b : pyval) : bool := negb (py_eq a b).

Definition isNaN (num : pyval) : bool := py_ne num num.

Lemma SFeqb_refl x : SFeqb x x = match x with S754_nan => false | _ => true end.
Proof.
  unfold SFeqb, SFcompare.
  destruct x as [[]|[]| |[] m e]; try reflexivity;
    by rewrite Z.compare_refl, Pos.compare_cont_refl.
Qed.

(** ** The device name handed to the service *)

(** [c in chars] *)
Definition in_chars (c : Ascii.ascii) (chars : string) : bool :=
  existsb (Ascii.eqb c) (String.list_ascii_of_string chars).

(** [s.lstrip(chars)]: drop leading characters while they are in [chars]. *)
Fixpoint lstrip (chars s : string) : string :=
  match s with
  | EmptyString => EmptyString
  | String c t => if in_chars c chars then lstrip chars t else s
  end.

(** [s.rstrip(chars)]: drop trailing characters while they are in [chars]. *)
Fixpoint rstrip (chars s : string) : string :=
  match s with
  | EmptyString => EmptyString
  | String c t =>
      match rstrip chars t with
      | EmptyString =>
          if in_chars c chars then EmptyString else String c EmptyString
      | r => String c r
      end
  end.

(** [s.strip(chars)] *)
Definition strip (chars s : string) : string := rstrip chars (lstrip chars s).

(** [tty=args.serial.strip("/dev/")] in [main]. *)
Definition main_tty (serial : string) : string := strip "/dev/" serial.

(** Every character of [s] is in [chars]. *)
Definition all_in (chars s : string) : Prop :=
  ∀ c, In c (String.list_ascii_of_string s) → in_chars c chars = true.

(** [s] neither starts nor ends with a character of [chars]. *)
Definition trimmed (chars s : string) : Prop :=
  (∀ c t, s = String c t → in_chars c chars = false)
  ∧ (∀ i z, s = i +:+ String z EmptyString → in_chars z chars = false).

Lemma append_nil (x : string) : EmptyString +:+ x = x.
Proof. reflexivity. Qed.

Lemma append_cons a (l x : string) : String a l +:+ x = String a (l +:+ x).
Proof. reflexivity. Qed.

Lemma lstrip_split chars s :
  ∃ l, s = l +:+ lstrip chars s
       ∧ all_in chars l
       ∧ ∀ c t, lstrip chars s = String c t → in_chars c chars = false.
Proof.
  induction s as [|a s (l & Hs & Hl & Hc)]; simpl.
  - exists EmptyString. split_and!; [done | by intros c [] | done].
  - destruct (in_chars a chars) eqn:Ha.
    + exists (String a l). split_and!; [by rewrite append_cons, <- Hs | | done].
      intros c [<-|Hin]; [done | by apply Hl].
    + exists EmptyString. split_and!; [done | by intros c [] |].
      by intros c t [= <- <-].
Qed.

Lemma append_last_inv a s i z :
  String a s = i +:+ String z EmptyString →
  (s = EmptyString ∧ i = EmptyString ∧ a = z)
  ∨ ∃ i', i = String a i' ∧ s = i' +:+ String z EmptyString.
Proof.
  destruct i as [|b i'].
  - rewrite append_nil. intros [= -> ->]. by left.
  - rewrite append_cons. intros [= -> ->]. right. by exists i'.
Qed.

Lemma rstrip_split chars s :
  ∃ r, s = rstrip chars s +:+ r
       ∧ all_in chars r
       ∧ (∀ i z, rstrip chars s = i +:+ String z EmptyString →
                 in_chars z chars = false)
       ∧ (∀ c t, s = String c t → in_chars c chars = false →
                 ∃ t', rstrip chars s = String c t').
Proof.
  induction s as [|a s (r & Hs & Hr & Hz & _)]; simpl.
  - exists EmptyString. split_and!; [done | by intros c [] | | done].
    intros [|b i] z; [rewrite append_nil | rewrite append_cons]; done.
  - destruct (rstrip chars s) as [|b u] eqn:Hu.
    + rewrite append_nil in Hs. subst r.
      destruct (in_chars a chars) eqn:Ha.
      * exists (String a s). split_and!; [done | | |].
        -- intros c [<-|Hin]; [done | by apply Hr].
        -- intros [|b i] z; [rewrite append_nil | rewrite append_cons]; done.
        -- intros c t [= <- <-] Hc. congruence.
      * exists s. split_and!; [done | done | |].
        -- intros i z [(_ & _ & <-)|(i' & _ & Hi')]%append_last_inv; [done|].
           destruct i'; [rewrite append_nil in Hi' | rewrite append_cons in Hi'];
             done.
        -- intros c t [= <- <-] _. by eexists.
    + exists r. split_and!; [by rewrite append_cons, <- Hs | done | |].
      * intros i z [([=] & _)|(i' & _ & Hi')]%append_last_inv.
        by apply (Hz i').
      * intros c t [= <- <-] _. by eexists.
Qed.

Lemma rstrip_trimmed chars s :
  (∀ i z, s = i +:+ String z EmptyString → in_chars z chars = false) →
  rstrip chars s = s.
Proof.
  induction s as [|a s IH]; [done|]. intros Hz. simpl.
  rewrite IH.
  - destruct s; [|done]. by rewrite (Hz EmptyString a).
  - intros i z ->. by apply (Hz (String a i)).
Qed.

Lemma lstrip_trimmed chars s :
  (∀ c t, s = String c t → in_chars c chars = false) →
  lstrip chars s = s.
Proof. destruct s as [|a s]; [done|]. intros Hc. simpl. by rewrite (Hc a s). Qed.

(** X14. [isNaN(num)] is [True] exactly when [num] is a float that is a
    NaN; it is [False] for every int, bool, string and for [None]. *)
Theorem isNaN_exactly_on_nan num :
  isNaN num = true ↔ ∃ f, num = VFloat f ∧ Prim2SF f = S754_nan.
Proof.
  unfold isNaN, py_ne, py_eq. destruct num as [|b|z|f|t]; simpl.
  - split; [done | by intros (f & [=] & _)].
  - rewrite Z.eqb_refl. split; [done | by intros (f & [=] & _)].
  - rewrite Z.eqb_refl. split; [done | by intros (f & [=] & _)].
  - rewrite FloatAxioms.eqb_spec, SFeqb_refl. split.
    + intros H. exists f. split; [done|]. by destruct (Prim2SF f).
    + intros (g & [= <-] & ->). done.
  - rewrite String.eqb_refl. split; [done | by intros (f & [=] & _)].
Qed.

(** X15. What [main] hands to the service as [tty] is the serial argument
    with a run of the characters '/', 'd', 'e' and 'v' removed at either
    end (not the prefix "/dev/"): what is left neither starts nor ends with
    one of the four. *)
Theorem tty_is_serial_trimmed serial :
  ∃ l r, serial = l +:+ main_tty serial +:+ r
         ∧ all_in "/dev/" l
         ∧ all_in "/dev/" r
         ∧ trimmed "/dev/" (main_tty serial).
Proof.
  unfold main_tty, strip.
  destruct (lstrip_split "/dev/" serial) as (l & Hs & Hl & Hc).
  destruct (rstrip_split "/dev/" (lstrip "/dev/" serial))
    as (r & Hm & Hr & Hz & Hfirst).
  exists l, r. split_and!; [by rewrite <- Hm | done | done |].
  split; [|done].
  intros c t Ht.
  destruct (lstrip "/dev/" serial) as [|a u] eqn:Hu; [done|].
  pose proof (Hc a u eq_refl) as Ha.
  destruct (Hfirst a u eq_refl Ha) as (t' & Ht').
  rewrite Ht' in Ht. by injection Ht as <- _.
Qed.

(** X16. For a device file "/dev/<name>" the service gets exactly <name>,
    provided <name> itself neither starts nor ends with '/', 'd', 'e' or
    'v'. *)
Theorem tty_of_device_file name :
  trimmed "/dev/" name →
  main_tty ("/dev/" +:+ name) = name.
Proof.
  intros [Hc Hz]. unfold main_tty, strip.
  change (lstrip "/dev/" ("/dev/" +:+ name)) with (lstrip "/dev/" name).
  rewrite lstrip_trimmed by done. by apply rstrip_trimmed.
Qed.

Lemma tty_of_device_file_witness :
  trimmed "/dev/" "ttyUSB0" ∧ main_tty "/dev/ttyUSB0" = "ttyUSB0".
Proof.
  assert (trimmed "/dev/" "ttyUSB0") as H.
  { split.
    - by intros c t [= <- _].
    - intros i z Hi.
      do 7 (destruct i as [|? i]; [by injection Hi as <- | injection Hi as _ Hi]).
      by destruct i. }
  split; [exact H|]. apply (tty_of_device_file "ttyUSB0" H).
Defined.
